(** * seek_wrapper: the C-linkage shim around the LibSeek thermal camera driver

    A shallow embedding of [src/native/seek_wrapper.cpp].  The four exported
    functions ([seek_open], [seek_close], [seek_get_dimensions],
    [seek_read_frame]) are written in a small state-and-fault monad over

    - the C++ free store: the live [SeekHandle] objects and the live camera
      objects, both as finite maps from addresses;
    - the LibSeek driver, which is external to the wrapper and is therefore an
      interface ([LibSeek]) whose instances thread an abstract world;
    - a ghost trace of the driver calls the wrapper made.

    A fault stands for C++ undefined behaviour: a null dereference, a use of
    freed storage, a double [delete], a [memcpy] past the end of a buffer, a
    signed overflow.  An exception that no handler of the wrapper catches
    leaves the exported function; the state it leaves behind is kept. *)

From Stdlib Require Import ZArith String List Lia.
From stdpp Require Import base option gmap strings list fin_maps.

Local Open Scope Z_scope.

(** ** Data *)

(** [int] is 32 bits wide; signed overflow is undefined. *)
Definition INT_MIN : Z := -2147483648.
Definition INT_MAX : Z := 2147483647.

Definition in_int (z : Z) : bool := (INT_MIN <=? z) && (z <=? INT_MAX).

(** [enum SeekCameraType], as the integers the C caller passes. *)
Definition SEEK_CAMERA_COMPACT : Z := 0.
Definition SEEK_CAMERA_PRO : Z := 1.

(** The two concrete camera classes behind [LibSeek::SeekCam]. *)
Inductive CamClass : Type := SeekThermal | SeekThermalPro.

#[global] Instance CamClass_eq_dec : EqDecision CamClass.
Proof. solve_decision. Defined.

(** A continuous single-channel 16-bit [cv::Mat]: [data] is what
    [ptr<uint16_t>()] points at, row after row.  A matrix that holds no
    sample has no storage: its data pointer is null. *)
Record Mat : Type := mkMat { rows : Z; cols : Z; data : list Z }.

(** [cv::Mat()] *)
Definition Mat_default : Mat := mkMat 0 0 [].

(** The sample at row [r], column [c]. *)
Definition Mat_at (m : Mat) (r c : Z) : option Z :=
  data m !! Z.to_nat (r * cols m + c).

Module SeekHandle.
(** [struct SeekHandle]; a [unique_ptr] or raw pointer is [None] when null
    and otherwise the address of a camera object. *)
Record t : Type := mk {
  compact : option positive;
  pro : option positive;
  camera : option positive;
  frame : Mat;
  width : Z;
  height : Z
}.

(** [SeekHandle()], by the default member initialisers. *)
Definition init : t := mk None None None Mat_default 0 0.

Definition set_compact (v : option positive) (h : t) : t :=
  mk v (pro h) (camera h) (frame h) (width h) (height h).
Definition set_pro (v : option positive) (h : t) : t :=
  mk (compact h) v (camera h) (frame h) (width h) (height h).
Definition set_camera (v : option positive) (h : t) : t :=
  mk (compact h) (pro h) v (frame h) (width h) (height h).
Definition set_frame (v : Mat) (h : t) : t :=
  mk (compact h) (pro h) (camera h) v (width h) (height h).
Definition set_width (v : Z) (h : t) : t :=
  mk (compact h) (pro h) (camera h) (frame h) v (height h).
Definition set_height (v : Z) (h : t) : t :=
  mk (compact h) (pro h) (camera h) (frame h) (width h) v.
End SeekHandle.

(** ** The driver interface

    [LibSeek::SeekCam] with its two subclasses.  The library is not part of
    the wrapper, so its behaviour is a parameter: [W] is whatever the driver
    and the device hold, and every method maps a world to a world.  The
    address of the receiving object is passed along, as [this] is. *)

(** What a call of a method that returns [bool] comes to: it returns its
    flag, or it leaves by an exception. *)
Inductive Answer : Type :=
| Returned (ok : bool)
| Thrown.

Class LibSeek (W : Type) : Type := {
  (** the constructor, given the calibration path; [false]: it throws *)
  cam_construct : CamClass → positive → string → W → bool * W;
  (** [bool open()] *)
  cam_open : CamClass → positive → W → Answer * W;
  (** [bool read(cv::Mat&)]: the answer, and the matrix as the call leaves
      it *)
  cam_read : CamClass → positive → Mat → W → Answer * Mat * W;
  (** [close()], taken to return *)
  cam_close : CamClass → positive → W → W;
  (** the destructor, which is [noexcept] *)
  cam_destroy : CamClass → positive → W → W
}.

(** What the wrapper asked of the driver, in order. *)
Inductive Event : Type :=
| EvConstruct (k : CamClass) (c : positive) (ffc : string) (ok : bool)
| EvOpen (c : positive) (ok : bool)
| EvRead (c : positive) (ok : bool)
| EvClose (c : positive)
| EvDestroy (c : positive)
| EvOpenThrew (c : positive)
| EvReadThrew (c : positive).

(** Undefined behaviour, by kind. *)
Inductive Fault : Type :=
| NullDeref | UseAfterFree | DoubleFree | OutOfBounds | IntOverflow.

(** How a computation over states [S] ends: with a result, in a fault, or
    by an exception nobody caught, in the state [s]. *)
Inductive Result (A S : Type) : Type :=
| Ok (a : A)
| Crash (f : Fault)
| Unwound (s : S).
Arguments Ok {A S} a.
Arguments Crash {A S} f.
Arguments Unwound {A S} s.

Section Wrapper.
Context {W : Type} `{!LibSeek W}.

Record State : Type := mkState {
  handles : gmap positive SeekHandle.t;
  cams : gmap positive CamClass;
  world : W;
  trace : list Event
}.

Definition M (A : Type) : Type := State → Result (A * State) State.

Definition ret {A} (a : A) : M A := fun s => Ok (a, s).

Definition bind {A B} (m : M A) (k : A → M B) : M B :=
  fun s => match m s with
           | Ok (a, s') => k a s'
           | Crash f => Crash f
           | Unwound s' => Unwound s'
           end.

Definition crash {A} (f : Fault) : M A := fun _ => Crash f.
End Wrapper.

Arguments State W : clear implicits.
Arguments M W A : clear implicits.

Notation "'let*' x ':=' m 'in' k" := (bind m (fun x => k))
  (at level 10, x name, m at level 100, k at level 200, only parsing).

(** ** The free store and the calls into the driver *)

Section Prims.
Context {W : Type} `{!LibSeek W}.

Definition set_handles (f : gmap positive SeekHandle.t → gmap positive SeekHandle.t)
    (s : State W) : State W :=
  mkState (f (handles s)) (cams s) (world s) (trace s).

(** One driver call: the object map [cs] and the world [w] after it, and
    the event it leaves in the trace. *)
Definition after_call (cs : gmap positive CamClass) (w : W) (e : Event)
    (s : State W) : State W :=
  mkState (handles s) cs w (trace s ++ [e]).

(** [new SeekHandle()]; an address not in use is taken. *)
Definition new_SeekHandle : M W positive := fun s =>
  let p := fresh (dom (handles s)) in
  Ok (p, set_handles (insert p SeekHandle.init) s).

(** Reading and writing members through a [SeekHandle*]. *)
Definition load (p : positive) : M W SeekHandle.t := fun s =>
  match handles s !! p with
  | Some h => Ok (h, s)
  | None => Crash UseAfterFree
  end.

Definition store (p : positive) (h : SeekHandle.t) : M W unit := fun s =>
  match handles s !! p with
  | Some _ => Ok (tt, set_handles (insert p h) s)
  | None => Crash UseAfterFree
  end.

(** [std::make_unique<K>(ffc)]: storage is taken, the constructor runs in
    it; when the constructor throws the storage is given back and there is
    no object ([None] stands for the exception). *)
Definition make_unique (k : CamClass) (ffc : string) : M W (option positive) := fun s =>
  let c := fresh (dom (cams s)) in
  let '(ok, w) := cam_construct k c ffc (world s) in
  if ok
  then Ok (Some c, after_call (<[c := k]> (cams s)) w (EvConstruct k c ffc true) s)
  else Ok (None, after_call (cams s) w (EvConstruct k c ffc false) s).

(** [camera->open()], a virtual call on the object at [c]. *)
Definition call_open (c : positive) : M W bool := fun s =>
  match cams s !! c with
  | Some k =>
      match cam_open k c (world s) with
      | (Returned ok, w) => Ok (ok, after_call (cams s) w (EvOpen c ok) s)
      | (Thrown, w) => Unwound (after_call (cams s) w (EvOpenThrew c) s)
      end
  | None => Crash UseAfterFree
  end.

(** [camera->close()] *)
Definition call_close (c : positive) : M W unit := fun s =>
  match cams s !! c with
  | Some k => Ok (tt, after_call (cams s) (cam_close k c (world s)) (EvClose c) s)
  | None => Crash UseAfterFree
  end.

(** [camera->read(handle->frame)]: the matrix is passed by reference and
    is a member of the handle at [p]. *)
Definition call_read (p c : positive) : M W bool := fun s =>
  match handles s !! p, cams s !! c with
  | Some h, Some k =>
      match cam_read k c (SeekHandle.frame h) (world s) with
      | (Returned ok, m, w) =>
          Ok (ok, set_handles (insert p (SeekHandle.set_frame m h))
                    (after_call (cams s) w (EvRead c ok) s))
      | (Thrown, m, w) =>
          Unwound (set_handles (insert p (SeekHandle.set_frame m h))
                     (after_call (cams s) w (EvReadThrew c) s))
      end
  | _, _ => Crash UseAfterFree
  end.

(** The destructor of a [unique_ptr]: deletes the object it owns, if any. *)
Definition unique_ptr_destroy (o : option positive) : M W unit := fun s =>
  match o with
  | None => Ok (tt, s)
  | Some c =>
      match cams s !! c with
      | Some k =>
          Ok (tt, after_call (delete c (cams s)) (cam_destroy k c (world s)) (EvDestroy c) s)
      | None => Crash DoubleFree
      end
  end.

(** [delete handle]: the members are destroyed in reverse order of
    declaration ([frame], then [pro], then [compact]) and the storage is
    given back. *)
Definition delete_SeekHandle (p : positive) : M W unit := fun s =>
  match handles s !! p with
  | None => Crash DoubleFree
  | Some h =>
      (let* _ := unique_ptr_destroy (SeekHandle.pro h) in
       let* _ := unique_ptr_destroy (SeekHandle.compact h) in
       fun s' => Ok (tt, set_handles (delete p) s')) s
  end.

(** [p->member] through a pointer that may be null. *)
Definition deref {A} (o : option A) : M W A :=
  match o with
  | Some a => ret a
  | None => crash NullDeref
  end.

(** [*q = v] through an [int*]: [ints] holds the [int] objects of the caller
    by address, and a pointer that refers to none of them is wild. *)
Definition write_int (q : positive) (v : Z) (ints : gmap positive Z)
    : M W (gmap positive Z) :=
  match ints !! q with
  | Some _ => ret (<[q := v]> ints)
  | None => crash OutOfBounds
  end.

(** [int * int] *)
Definition int_mul (a b : Z) : M W Z :=
  if in_int (a * b) then ret (a * b) else crash IntOverflow.

(** [std::memcpy(dst, src, n * sizeof(uint16_t))] on arrays of 16-bit
    samples.  The source is the data of a matrix: with no sample it is the
    null pointer, which [memcpy] must not be given whatever [n] is.  A
    negative [n] converts to a [size_t] larger than any array. *)
Definition memcpy_u16 (dst src : list Z) (n : Z) : M W (list Z) :=
  match src with
  | [] => crash NullDeref
  | _ :: _ =>
      if (0 <=? n) && (n <=? Z.of_nat (length src)) && (n <=? Z.of_nat (length dst))
      then ret (take (Z.to_nat n) src ++ drop (Z.to_nat n) dst)
      else crash OutOfBounds
  end.
End Prims.

(** ** The exported functions *)

Section Exported.
Context {W : Type} `{!LibSeek W}.

(** The [try] block of [seek_open]: [true] when it ran to its end, [false]
    when the [catch (...)] clause was entered. *)
Definition construct_camera (handle : positive) (camera_type : Z) (ffc : string)
    : M W bool :=
  if camera_type =? SEEK_CAMERA_PRO then
    let* made := make_unique SeekThermalPro ffc in
    match made with
    | Some c =>
        let* h := load handle in
        let* _ := store handle (SeekHandle.set_pro (Some c) h) in
        let* h := load handle in
        let* _ := store handle (SeekHandle.set_camera (SeekHandle.pro h) h) in
        ret true
    | None => ret false
    end
  else
    let* made := make_unique SeekThermal ffc in
    match made with
    | Some c =>
        let* h := load handle in
        let* _ := store handle (SeekHandle.set_compact (Some c) h) in
        let* h := load handle in
        let* _ := store handle (SeekHandle.set_camera (SeekHandle.compact h) h) in
        ret true
    | None => ret false
    end.

(** [ffc_path] is [None] for a null pointer. *)
Definition seek_open (camera_type : Z) (ffc_path : option string)
    : M W (option positive) :=
  let ffc := match ffc_path with Some path => path | None => EmptyString end in
  let* handle := new_SeekHandle in
  let* constructed := construct_camera handle camera_type ffc in
  if negb constructed then
    let* _ := delete_SeekHandle handle in
    ret None
  else
    let* h := load handle in
    match SeekHandle.camera h with
    | None =>
        let* _ := delete_SeekHandle handle in
        ret None
    | Some c =>
        let* opened := call_open c in
        if negb opened then
          let* _ := delete_SeekHandle handle in
          ret None
        else
          let* got := call_read handle c in
          if negb got then
            let* _ := call_close c in
            let* _ := delete_SeekHandle handle in
            ret None
          else
            let* h := load handle in
            let* _ := store handle (SeekHandle.set_width (cols (SeekHandle.frame h)) h) in
            let* h := load handle in
            let* _ := store handle (SeekHandle.set_height (rows (SeekHandle.frame h)) h) in
            ret (Some handle)
    end.

Definition seek_close (handle : option positive) : M W unit :=
  match handle with
  | None => ret tt
  | Some p =>
      let* h := load p in
      let* _ :=
        match SeekHandle.camera h with
        | Some c =>
            let* _ := call_close c in
            let* h := load p in
            store p (SeekHandle.set_camera None h)
        | None => ret tt
        end in
      delete_SeekHandle p
  end.

(** [width] and [height] are [None] for a null pointer and otherwise the
    address of an [int] among the caller's [ints]; nothing keeps the two
    addresses apart.  The call returns its result together with the
    caller's [ints] afterwards. *)
Definition seek_get_dimensions (handle : option positive)
    (width height : option positive) (ints : gmap positive Z)
    : M W (Z * gmap positive Z) :=
  match handle, width, height with
  | Some p, Some width, Some height =>
      let* h := load p in
      let* ints := write_int width (SeekHandle.width h) ints in
      let* h := load p in
      let* ints := write_int height (SeekHandle.height h) ints in
      ret (1, ints)
  | _, _, _ => ret (0, ints)
  end.

(** Where a caller's two variables [w] and [h] live. *)
Definition var_w : positive := 1%positive.
Definition var_h : positive := 2%positive.

(** The call [seek_get_dimensions(handle, &w, &h)] of a caller with two
    [int] variables, [width] and [height] being what they hold; [None]
    stands for a null pointer passed in place of the address.  The call
    returns its result together with what the variables hold afterwards. *)
Definition seek_get_dimensions_vars (handle : option positive)
    (width height : option Z) : M W (Z * option Z * option Z) :=
  let ints : gmap positive Z :=
    from_option (λ v, <[var_w := v]>) id width
      (from_option (λ v, {[var_h := v]}) ∅ height) in
  let* r := seek_get_dimensions handle ((λ _, var_w) <$> width)
              ((λ _, var_h) <$> height) ints in
  ret (r.1, r.2 !! var_w, r.2 !! var_h).

(** [out_buffer] is [None] for a null pointer and otherwise the caller's
    array, as long as the caller really allocated it; the call returns its
    result together with the array afterwards. *)
Definition seek_read_frame (handle : option positive) (out_buffer : option (list Z))
    (capacity : Z) : M W (Z * option (list Z)) :=
  match handle, out_buffer with
  | Some p, Some buf =>
      if capacity <=? 0 then ret (-1, out_buffer) else
      let* h := load p in
      let* c := deref (SeekHandle.camera h) in
      let* got := call_read p c in
      if negb got then ret (-2, out_buffer) else
      let* h := load p in
      let* total_pixels := int_mul (rows (SeekHandle.frame h)) (cols (SeekHandle.frame h)) in
      if capacity <? total_pixels then ret (-3, out_buffer) else
      let* written := memcpy_u16 buf (data (SeekHandle.frame h)) total_pixels in
      ret (total_pixels, Some written)
  | _, _ => ret (-1, out_buffer)
  end.
End Exported.

(** ** A scripted driver

    An instance of the interface for concrete runs: the device answers the
    constructor and [open] by two flags, and each [read] by the next entry
    of a script, [Some m] delivering the matrix [m] and [None] failing and
    leaving the caller's matrix as it was.  A script that ran out fails.
    This driver never throws from [open] or [read]. *)
Module Scripted.
Record world : Type := mk {
  ctor_ok : bool;
  open_ok : bool;
  script : list (option Mat)
}.

Definition read (m : Mat) (w : world) : Answer * Mat * world :=
  match script w with
  | [] => (Returned false, m, w)
  | None :: rest => (Returned false, m, mk (ctor_ok w) (open_ok w) rest)
  | Some m' :: rest => (Returned true, m', mk (ctor_ok w) (open_ok w) rest)
  end.

#[global] Instance driver : LibSeek world := {
  cam_construct _ _ _ w := (ctor_ok w, w);
  cam_open _ _ w := (Returned (open_ok w), w);
  cam_read _ _ m w := read m w;
  cam_close _ _ w := w;
  cam_destroy _ _ w := w
}.

(** Nothing allocated, nothing called yet. *)
Definition boot (w : world) : State world := mkState ∅ ∅ w [].

(** A 2x3 frame and a 1x2 frame. *)
Definition frame23 : Mat := mkMat 2 3 [10; 11; 12; 20; 21; 22].
Definition frame12 : Mat := mkMat 1 2 [7; 8].
End Scripted.

(** ** A driver that throws

    An instance whose constructor returns and whose [open] and [read] come
    to the two answers its world holds; [read] leaves the matrix alone. *)
Module Throwing.
Record world : Type := mk {
  open_answer : Answer;
  read_answer : Answer
}.

#[global] Instance driver : LibSeek world := {
  cam_construct _ _ _ w := (true, w);
  cam_open _ _ w := (open_answer w, w);
  cam_read _ _ m w := (read_answer w, m, w);
  cam_close _ _ w := w;
  cam_destroy _ _ w := w
}.
End Throwing.

(** ** The notions the statements are written in *)

Section Notions.
Context {W : Type} `{!LibSeek W}.

(** The class [seek_open] instantiates for a [camera_type]. *)
Definition camera_class (camera_type : Z) : CamClass :=
  if camera_type =? SEEK_CAMERA_PRO then SeekThermalPro else SeekThermal.

(** The handle [seek_open] hands out for a camera of class [k] at [c]
    whose first read delivered [m]. *)
Definition opened_handle (k : CamClass) (c : positive) (m : Mat) : SeekHandle.t :=
  match k with
  | SeekThermal => SeekHandle.mk (Some c) None (Some c) m (cols m) (rows m)
  | SeekThermalPro => SeekHandle.mk None (Some c) (Some c) m (cols m) (rows m)
  end.

(** The handle right after the [try] block. *)
Definition constructed_handle (k : CamClass) (c : positive) : SeekHandle.t :=
  match k with
  | SeekThermal => SeekHandle.mk (Some c) None (Some c) Mat_default 0 0
  | SeekThermalPro => SeekHandle.mk None (Some c) (Some c) Mat_default 0 0
  end.

(** [h] is the handle of the camera object of class [k] at [c]: its raw
    pointer refers to it, and the [unique_ptr] of that class owns it. *)
Definition owns (h : SeekHandle.t) (c : positive) (k : CamClass) : Prop :=
  SeekHandle.camera h = Some c ∧
  SeekHandle.pro h = (if k is SeekThermalPro then Some c else None) ∧
  SeekHandle.compact h = (if k is SeekThermal then Some c else None).

(** [p] is an open handle: it points at the live [SeekHandle] [h], whose
    camera object is live too. *)
Definition handle_open (s : State W) (p : positive) (h : SeekHandle.t)
    (c : positive) (k : CamClass) : Prop :=
  handles s !! p = Some h ∧ owns h c k ∧ cams s !! c = Some k.

(** The state a [read] on the camera of handle [p] leaves. *)
Definition after_read (p : positive) (h : SeekHandle.t) (c : positive)
    (ok : bool) (m : Mat) (w : W) (s : State W) : State W :=
  mkState (<[p := SeekHandle.set_frame m h]> (handles s)) (cams s) w
          (trace s ++ [EvRead c ok]).

(** Nothing allocated between [s] and [s'] is still allocated. *)
Definition released (s s' : State W) : Prop :=
  handles s' = handles s ∧ cams s' = cams s.

(** The handle at [p] and the camera object of class [k] at [c], both
    allocated between [s] and [s'], are still allocated in [s']. *)
Definition leaked (s s' : State W) (p c : positive) (k : CamClass) : Prop :=
  handles s !! p = None ∧ cams s !! c = None ∧
  (∃ h, handles s' = <[p := h]> (handles s) ∧ owns h c k) ∧
  cams s' = <[c := k]> (cams s).

(** [p] is a new handle in [s'], on a new camera object of the class
    chosen by [camera_type], constructed on [ffc] and opened, whose width
    and height are the columns and rows of the matrix [m] that the first
    read delivered. *)
Definition initialized (s s' : State W) (camera_type : Z) (ffc : string)
    (p : positive) (m : Mat) : Prop :=
  let k := camera_class camera_type in
  ∃ h c w1 w2,
    handles s !! p = None ∧ cams s !! c = None ∧
    handles s' = <[p := h]> (handles s) ∧ cams s' = <[c := k]> (cams s) ∧
    handle_open s' p h c k ∧
    cam_construct k c ffc (world s) = (true, w1) ∧
    cam_open k c w1 = (Returned true, w2) ∧
    cam_read k c Mat_default w2 = (Returned true, m, world s') ∧
    SeekHandle.frame h = m ∧
    SeekHandle.width h = cols m ∧ SeekHandle.height h = rows m.

(** What the driver answers to the [read] that [seek_read_frame] would
    make on [handle] in [s], when there is a camera to ask. *)
Definition device_read (s : State W) (handle : option positive)
    : option (Answer * Mat * W) :=
  p ← handle;
  h ← handles s !! p;
  c ← SeekHandle.camera h;
  k ← cams s !! c;
  Some (cam_read k c (SeekHandle.frame h) (world s)).

(** The three ways a call with a handle, a buffer and a positive capacity
    can return. *)
Inductive read_frame_case (buf : list Z) (capacity : Z) (ok : bool) (m : Mat)
    : Z → option (list Z) → Prop :=
| read_failed :
    ok = false →
    read_frame_case buf capacity ok m (-2) (Some buf)
| buffer_too_small :
    ok = true → capacity < rows m * cols m →
    read_frame_case buf capacity ok m (-3) (Some buf)
| frame_copied :
    ok = true → 0 <= rows m * cols m <= capacity →
    rows m * cols m <= Z.of_nat (length (data m)) →
    rows m * cols m <= Z.of_nat (length buf) →
    read_frame_case buf capacity ok m (rows m * cols m)
      (Some (take (Z.to_nat (rows m * cols m)) (data m)
             ++ drop (Z.to_nat (rows m * cols m)) buf)).

(** A matrix the wrapper can copy from without fault: a pixel count that
    is an [int] and that many samples stored. *)
Definition Mat_ok (m : Mat) : Prop :=
  0 <= rows m * cols m <= INT_MAX ∧
  Z.of_nat (length (data m)) = rows m * cols m.

(** What a caller of [seek_read_frame] owes: a handle that is null or
    open, a buffer that is null or has room for [capacity] samples, and a
    driver whose [read] returns and, when it succeeds, delivers a well-formed
    matrix that holds samples. *)
Definition read_frame_contract (s : State W) (handle : option positive)
    (out_buffer : option (list Z)) (capacity : Z) : Prop :=
  (∀ p, handle = Some p → ∃ h c k, handle_open s p h c k) ∧
  (∀ buf, out_buffer = Some buf → capacity <= Z.of_nat (length buf)) ∧
  (∀ a m w, device_read s handle = Some (a, m, w) →
     ∃ ok, a = Returned ok ∧ (ok = true → Mat_ok m ∧ data m ≠ [])).

(** What [seek_open] needs of the driver to return: an [open] that
    returns and, on an opened device, a first [read] that returns. *)
Definition open_contract (s : State W) (camera_type : Z)
    (ffc_path : option string) : Prop :=
  let k := camera_class camera_type in
  let c := fresh (dom (cams s)) in
  ∀ w1, cam_construct k c (default EmptyString ffc_path) (world s) = (true, w1) →
    ∃ ok2 w2,
      cam_open k c w1 = (Returned ok2, w2) ∧
      (ok2 = true →
       ∃ ok3 m w3, cam_read k c Mat_default w2 = (Returned ok3, m, w3)).
End Notions.

(** One call of the exported interface, with its arguments;
    [seek_get_dimensions] is called on two variables of the caller, as
    [seek_get_dimensions_vars] has it. *)
Inductive Call : Type :=
| CallOpen (camera_type : Z) (ffc_path : option string)
| CallClose (handle : option positive)
| CallGetDimensions (handle : option positive) (width height : option Z)
| CallReadFrame (handle : option positive) (out_buffer : option (list Z))
                (capacity : Z).

Section Calls.
Context {W : Type} `{!LibSeek W}.

Definition run_call (call : Call) : M W unit :=
  match call with
  | CallOpen camera_type ffc_path =>
      let* _ := seek_open camera_type ffc_path in ret tt
  | CallClose handle => seek_close handle
  | CallGetDimensions handle width height =>
      let* _ := seek_get_dimensions_vars handle width height in ret tt
  | CallReadFrame handle out_buffer capacity =>
      let* _ := seek_read_frame handle out_buffer capacity in ret tt
  end.

Fixpoint run_calls (calls : list Call) : M W unit :=
  match calls with
  | [] => ret tt
  | call :: rest => let* _ := run_call call in run_calls rest
  end.

(** The handle at [p], if live in [s], is live in [s'] with the same
    width and height, and on the same camera. *)
Definition keeps_geometry (p : positive) (s s' : State W) : Prop :=
  ∀ h, handles s !! p = Some h →
    ∃ h', handles s' !! p = Some h' ∧
          SeekHandle.width h' = SeekHandle.width h ∧
          SeekHandle.height h' = SeekHandle.height h ∧
          SeekHandle.camera h' = SeekHandle.camera h.

(** Every live handle owns a live camera object, no two handles share a
    camera object, and every live camera object belongs to a handle. *)
Definition wf (s : State W) : Prop :=
  (∀ p h, handles s !! p = Some h →
     ∃ c k, owns h c k ∧ cams s !! c = Some k) ∧
  (∀ p q hp hq c,
     handles s !! p = Some hp → handles s !! q = Some hq →
     SeekHandle.camera hp = Some c → SeekHandle.camera hq = Some c → p = q) ∧
  (∀ c k, cams s !! c = Some k →
     ∃ p h, handles s !! p = Some h ∧ SeekHandle.camera h = Some c).
End Calls.

(** ** Concrete sessions on the scripted driver *)

Module Session1.
Import Scripted.

(** The address of the first handle and of the first camera object. *)
Definition H : positive := 1%positive.

(** A caller's buffer of six samples. *)
Definition zeros : list Z := [0; 0; 0; 0; 0; 0].

(** Two [int] variables of the caller, both 0. *)
Definition vars : gmap positive Z := <[var_w := 0]> {[var_h := 0]}.

(** The device: everything succeeds, the first read delivers a 2x3 frame. *)
Definition device (script : list (option Mat)) : world := mk true true script.

(** The handle of a compact camera opened on a 2x3 frame, holding [frm]. *)
Definition handle23 (frm : Mat) : SeekHandle.t :=
  SeekHandle.mk (Some H) None (Some H) frm 3 2.

Definition opening : list Event :=
  [EvConstruct SeekThermal H EmptyString true; EvOpen H true; EvRead H true].

(** The session after [seek_open] and the reads in [evs], with [frm] the
    matrix read last and [script] what the device has yet to answer. *)
Definition session (frm : Mat) (script : list (option Mat)) (evs : list Event)
    : State world :=
  mkState {[H := handle23 frm]} {[H := SeekThermal]} (device script)
          (opening ++ evs).

(** The state after that session was closed. *)
Definition closed (script : list (option Mat)) : State world :=
  mkState ∅ ∅ (device script) (opening ++ [EvClose H; EvDestroy H]).
End Session1.

(** Two sessions side by side: the compact camera of [Session1] and a pro
    camera opened after it on a 1x2 frame. *)
Module Session2.
Import Scripted.

(** The address of the second handle and of the second camera object. *)
Definition G : positive := 2%positive.

Definition handle12 : SeekHandle.t :=
  SeekHandle.mk None (Some G) (Some G) frame12 2 1.

Definition both (script : list (option Mat)) (evs : list Event) : State world :=
  mkState (<[G := handle12]> {[Session1.H := Session1.handle23 frame23]})
          (<[G := SeekThermalPro]> {[Session1.H := SeekThermal]})
          (Session1.device script)
          (Session1.opening ++
           [EvConstruct SeekThermalPro G EmptyString true; EvOpen G true;
            EvRead G true] ++ evs).
End Session2.

(** ** The life cycle of a camera object *)




(** The handle a call is made on. *)
Definition call_handle (call : Call) : option positive :=
  match call with
  | CallOpen _ _ => None
  | CallClose handle => handle
  | CallGetDimensions handle _ _ => handle
  | CallReadFrame handle _ _ => handle
  end.

Section Discipline.
Context {W : Type} `{!LibSeek W}.

(** What a caller owes for one call in the state [s]: a handle argument
    is null or live, and [seek_open] and [seek_read_frame] get their
    contracts. *)
Definition call_ok (s : State W) (call : Call) : Prop :=
  match call with
  | CallOpen camera_type ffc_path => open_contract s camera_type ffc_path
  | CallClose handle => ∀ p, handle = Some p → is_Some (handles s !! p)
  | CallGetDimensions handle _ _ => ∀ p, handle = Some p → is_Some (handles s !! p)
  | CallReadFrame handle out_buffer capacity =>
      read_frame_contract s handle out_buffer capacity
  end.

End Discipline.

(** ** Proof steps *)

(** Run the monadic code on the state at hand. *)
Ltac crunch :=
  repeat (progress (cbn; rewrite ?lookup_insert_eq));
  unfold set_handles, after_call; cbn.

Ltac crunch_with H :=
  repeat (progress (cbn; rewrite ?lookup_insert_eq, ?H));
  unfold set_handles, after_call; cbn.

(** ** What each exported function computes *)

Section Equations.
Context {W : Type} `{!LibSeek W}.

Lemma bind_ok {A B} (m : M W A) (k : A → M W B) s a s' :
  m s = Ok (a, s') → bind m k s = k a s'.
Proof. unfold bind. intros ->. reflexivity. Qed.

Lemma bind_crash {A B} (m : M W A) (k : A → M W B) s f :
  m s = Crash f → bind m k s = Crash f.
Proof. unfold bind. intros ->. reflexivity. Qed.

Lemma bind_inv {A B} (m : M W A) (k : A → M W B) s r :
  bind m k s = Ok r → ∃ a s', m s = Ok (a, s') ∧ k a s' = Ok r.
Proof.
  unfold bind. destruct (m s) as [[a s']|f|s1]; [|discriminate|discriminate].
  intros Hk. exists a, s'. split; [reflexivity|exact Hk].
Qed.

Lemma load_ok p h (s : State W) :
  handles s !! p = Some h → load p s = Ok (h, s).
Proof. unfold load. intros ->. reflexivity. Qed.

Lemma store_ok p h0 h (s : State W) :
  handles s !! p = Some h0 → store p h s = Ok (tt, set_handles (insert p h) s).
Proof. unfold store. intros ->. reflexivity. Qed.

Lemma fresh_handle (s : State W) : handles s !! fresh (dom (handles s)) = None.
Proof. apply not_elem_of_dom, is_fresh. Qed.

Lemma fresh_cam (s : State W) : cams s !! fresh (dom (cams s)) = None.
Proof. apply not_elem_of_dom, is_fresh. Qed.

(** Collapse the writes to one address and drop what was freed. *)
Ltac tidy_maps s :=
  rewrite ?insert_insert_eq, ?delete_insert_eq,
    ?(delete_id _ _ (fresh_handle s)), ?(delete_id _ _ (fresh_cam s)),
    <- ?app_assoc.

Lemma construct_camera_eq p camera_type ffc (s : State W) :
  handles s !! p = Some SeekHandle.init →
  let c := fresh (dom (cams s)) in
  let k := camera_class camera_type in
  construct_camera p camera_type ffc s =
    let '(ok, w) := cam_construct k c ffc (world s) in
    if ok
    then Ok (true, mkState (<[p := constructed_handle k c]> (handles s))
                           (<[c := k]> (cams s)) w
                           (trace s ++ [EvConstruct k c ffc true]))
    else Ok (false, mkState (handles s) (cams s) w
                            (trace s ++ [EvConstruct k c ffc false])).
Proof.
  intros Hp c k. subst c k. unfold construct_camera, camera_class.
  destruct (camera_type =? SEEK_CAMERA_PRO);
    unfold bind at 1; unfold make_unique;
    destruct (cam_construct _ _ ffc (world s)) as [[|] w]; try reflexivity;
    unfold bind, load, store, ret;
    repeat (progress (cbn; rewrite ?Hp, ?lookup_insert_eq));
    unfold set_handles, after_call; cbn;
    rewrite !insert_insert_eq; reflexivity.
Qed.

Lemma delete_SeekHandle_eq p h (s : State W) :
  handles s !! p = Some h →
  delete_SeekHandle p s =
    (let* _ := unique_ptr_destroy (SeekHandle.pro h) in
     let* _ := unique_ptr_destroy (SeekHandle.compact h) in
     fun s' => Ok (tt, set_handles (delete p) s')) s.
Proof. unfold delete_SeekHandle. intros ->. reflexivity. Qed.

(** Deleting the handle of a live camera of class [k] at [c]. *)
Lemma delete_constructed p h k c (s : State W) :
  handles s !! p = Some h →
  SeekHandle.pro h = (if k is SeekThermalPro then Some c else None) →
  SeekHandle.compact h = (if k is SeekThermal then Some c else None) →
  cams s !! c = Some k →
  delete_SeekHandle p s =
    Ok (tt, mkState (delete p (handles s)) (delete c (cams s))
                    (cam_destroy k c (world s)) (trace s ++ [EvDestroy c])).
Proof.
  intros Hp Hpro Hcompact Hc. rewrite (delete_SeekHandle_eq _ _ _ Hp).
  rewrite Hpro, Hcompact. destruct k; unfold bind, unique_ptr_destroy; cbn;
    rewrite Hc; reflexivity.
Qed.

(** [seek_open], case by case over what the driver answers. *)
Lemma seek_open_eq camera_type ffc_path (s : State W) :
  let ffc := default EmptyString ffc_path in
  let p := fresh (dom (handles s)) in
  let c := fresh (dom (cams s)) in
  let k := camera_class camera_type in
  seek_open camera_type ffc_path s =
    let '(ok1, w1) := cam_construct k c ffc (world s) in
    if negb ok1 then
      Ok (None, mkState (handles s) (cams s) w1
                  (trace s ++ [EvConstruct k c ffc false]))
    else
      match cam_open k c w1 with
      | (Thrown, w2) =>
          Unwound (mkState (<[p := constructed_handle k c]> (handles s))
                     (<[c := k]> (cams s)) w2
                     (trace s ++ [EvConstruct k c ffc true; EvOpenThrew c]))
      | (Returned ok2, w2) =>
          if negb ok2 then
            Ok (None, mkState (handles s) (cams s) (cam_destroy k c w2)
                        (trace s ++ [EvConstruct k c ffc true; EvOpen c false;
                                     EvDestroy c]))
          else
            match cam_read k c Mat_default w2 with
            | (Thrown, m, w3) =>
                Unwound (mkState
                           (<[p := SeekHandle.set_frame m (constructed_handle k c)]>
                              (handles s))
                           (<[c := k]> (cams s)) w3
                           (trace s ++ [EvConstruct k c ffc true; EvOpen c true;
                                        EvReadThrew c]))
            | (Returned ok3, m, w3) =>
                if negb ok3 then
                  Ok (None, mkState (handles s) (cams s)
                              (cam_destroy k c (cam_close k c w3))
                              (trace s ++ [EvConstruct k c ffc true; EvOpen c true;
                                           EvRead c false; EvClose c; EvDestroy c]))
                else
                  Ok (Some p, mkState (<[p := opened_handle k c m]> (handles s))
                                (<[c := k]> (cams s)) w3
                                (trace s ++ [EvConstruct k c ffc true; EvOpen c true;
                                             EvRead c true]))
            end
      end.
Proof.
  intros ffc p c k. unfold seek_open.
  replace (match ffc_path with Some path => path | None => EmptyString end)
    with ffc by (destruct ffc_path; reflexivity).
  rewrite (bind_ok new_SeekHandle _ s p (set_handles (insert p SeekHandle.init) s))
    by reflexivity.
  unfold bind at 1. rewrite construct_camera_eq by apply lookup_insert_eq.
  cbn [cams world trace handles set_handles]. fold c k.
  destruct (cam_construct k c ffc (world s)) as [[|] w1]; cbn [negb].
  - unfold bind at 1, load. crunch.
    replace (SeekHandle.camera (constructed_handle k c)) with (Some c)
      by (destruct k; reflexivity).
    unfold bind at 1, call_open. crunch.
    destruct (cam_open k c w1) as [[[|]|] w2]; cbn [negb].
    + unfold bind at 1, call_read. crunch.
      replace (SeekHandle.frame (constructed_handle k c)) with Mat_default
        by (destruct k; reflexivity).
      destruct (cam_read k c Mat_default w2) as [[[[|]|] m] w3]; cbn [negb].
      * unfold bind, load, store, ret. crunch. tidy_maps s.
        destruct k; reflexivity.
      * unfold bind at 1, call_close. crunch.
        unfold bind at 1.
        erewrite delete_constructed with (k := k) (c := c);
          [ | crunch; reflexivity | destruct k; reflexivity
            | destruct k; reflexivity | crunch; reflexivity ].
        unfold ret. crunch. tidy_maps s. reflexivity.
      * tidy_maps s. destruct k; reflexivity.
    + unfold bind at 1.
      erewrite delete_constructed with (k := k) (c := c);
        [ | crunch; reflexivity | destruct k; reflexivity
          | destruct k; reflexivity | crunch; reflexivity ].
      unfold ret. crunch. tidy_maps s. reflexivity.
    + tidy_maps s. reflexivity.
  - unfold bind, delete_SeekHandle, unique_ptr_destroy, ret. crunch.
    tidy_maps s. reflexivity.
Qed.

Lemma owns_opened_handle k c m : owns (opened_handle k c m) c k.
Proof. destruct k; repeat split. Qed.

Lemma owns_set_frame h c k m : owns h c k → owns (SeekHandle.set_frame m h) c k.
Proof. intros H. exact H. Qed.

(** [seek_close] on an open handle. *)
Lemma seek_close_eq p h c k (s : State W) :
  handle_open s p h c k →
  seek_close (Some p) s =
    Ok (tt, mkState (delete p (handles s)) (delete c (cams s))
                    (cam_destroy k c (cam_close k c (world s)))
                    (trace s ++ [EvClose c; EvDestroy c])).
Proof.
  intros (Hp & (Hcam & Hpro & Hcompact) & Hc).
  unfold seek_close. rewrite (bind_ok _ _ _ _ _ (load_ok _ _ _ Hp)).
  rewrite Hcam.
  erewrite bind_ok with
    (s' := mkState (<[p := SeekHandle.set_camera None h]> (handles s)) (cams s)
                   (cam_close k c (world s)) (trace s ++ [EvClose c]));
    [ | unfold bind, call_close, load, store; rewrite Hc; crunch_with Hp;
        reflexivity ].
  erewrite delete_constructed with (k := k) (c := c);
    [ | apply lookup_insert_eq | exact Hpro | exact Hcompact | exact Hc ].
  cbn [handles cams world trace]. tidy_maps s. reflexivity.
Qed.

(** [seek_read_frame] on an open handle with a buffer and a positive
    capacity, case by case over what the driver answers. *)
Lemma seek_read_frame_eq p h c k buf capacity (s : State W) :
  handles s !! p = Some h →
  SeekHandle.camera h = Some c →
  cams s !! c = Some k →
  0 < capacity →
  seek_read_frame (Some p) (Some buf) capacity s =
    match cam_read k c (SeekHandle.frame h) (world s) with
    | (Thrown, m, w) =>
        Unwound (mkState (<[p := SeekHandle.set_frame m h]> (handles s)) (cams s) w
                   (trace s ++ [EvReadThrew c]))
    | (Returned ok, m, w) =>
        let s' := after_read p h c ok m w s in
        let n := rows m * cols m in
        if negb ok then Ok ((-2, Some buf), s')
        else if negb (in_int n) then Crash IntOverflow
        else if capacity <? n then Ok ((-3, Some buf), s')
        else match data m with
             | [] => Crash NullDeref
             | _ :: _ =>
                 if (0 <=? n) && (n <=? Z.of_nat (length (data m)))
                    && (n <=? Z.of_nat (length buf))
                 then Ok ((n, Some (take (Z.to_nat n) (data m)
                                    ++ drop (Z.to_nat n) buf)), s')
                 else Crash OutOfBounds
             end
    end.
Proof.
  intros Hp Hcam Hc Hcap. unfold seek_read_frame.
  replace (capacity <=? 0) with false by (symmetry; apply Z.leb_gt; lia).
  rewrite (bind_ok _ _ _ _ _ (load_ok _ _ _ Hp)). rewrite Hcam.
  unfold deref. unfold bind at 1. unfold ret at 1.
  unfold bind at 1, call_read. rewrite Hp, Hc.
  destruct (cam_read k c (SeekHandle.frame h) (world s)) as [[[[|]|] m] w];
    cbn [negb]; [|reflexivity|reflexivity].
  unfold bind at 1, load. crunch.
  unfold bind at 1, int_mul.
  destruct (in_int (rows m * cols m)); cbn [negb]; [|reflexivity].
  unfold ret at 1.
  destruct (capacity <? rows m * cols m); [reflexivity|].
  unfold bind, memcpy_u16.
  destruct (data m) as [|x rest] eqn:Hdata; [reflexivity|].
  destruct ((0 <=? rows m * cols m)
            && (rows m * cols m <=? Z.of_nat (length (x :: rest)))
            && (rows m * cols m <=? Z.of_nat (length buf))); reflexivity.
Qed.

(** The null and non-positive arguments of [seek_read_frame]. *)
Lemma seek_read_frame_invalid handle out_buffer capacity (s : State W) :
  handle = None ∨ out_buffer = None ∨ capacity <= 0 →
  seek_read_frame handle out_buffer capacity s = Ok ((-1, out_buffer), s).
Proof.
  intros Hbad. unfold seek_read_frame.
  destruct handle as [p|], out_buffer as [buf|]; try reflexivity.
  destruct Hbad as [?|[?|Hcap]]; try discriminate.
  replace (capacity <=? 0) with true by (symmetry; apply Z.leb_le; lia).
  reflexivity.
Qed.

Lemma seek_get_dimensions_null handle width height (ints : gmap positive Z)
    (s : State W) :
  handle = None ∨ width = None ∨ height = None →
  seek_get_dimensions handle width height ints s = Ok ((0, ints), s).
Proof.
  intros Hnull. unfold seek_get_dimensions.
  destruct handle, width, height; try reflexivity.
  destruct Hnull as [?|[?|?]]; discriminate.
Qed.

Lemma seek_get_dimensions_eq p h width height (ints : gmap positive Z)
    (s : State W) :
  handles s !! p = Some h →
  is_Some (ints !! width) → is_Some (ints !! height) →
  seek_get_dimensions (Some p) (Some width) (Some height) ints s =
    Ok ((1, <[height := SeekHandle.height h]> (<[width := SeekHandle.width h]> ints)),
        s).
Proof.
  intros Hp [v Hw] [v' Hh].
  unfold seek_get_dimensions.
  rewrite (bind_ok _ _ _ _ _ (load_ok _ _ _ Hp)).
  unfold write_int at 1. rewrite Hw. unfold bind at 1, ret at 1.
  rewrite (bind_ok _ _ _ _ _ (load_ok _ _ _ Hp)).
  unfold write_int. rewrite lookup_insert.
  case_decide; rewrite ?Hh; reflexivity.
Qed.

Lemma seek_get_dimensions_dangling p width height (ints : gmap positive Z)
    (s : State W) :
  handles s !! p = None →
  seek_get_dimensions (Some p) (Some width) (Some height) ints s =
    Crash UseAfterFree.
Proof.
  intros Hp. unfold seek_get_dimensions, bind, load. rewrite Hp. reflexivity.
Qed.

(** The call on two variables. *)
Lemma seek_get_dimensions_vars_null handle width height (s : State W) :
  handle = None ∨ width = None ∨ height = None →
  seek_get_dimensions_vars handle width height s = Ok ((0, width, height), s).
Proof.
  intros Hnull. unfold seek_get_dimensions_vars.
  assert (Hn : handle = None ∨ (λ _ : Z, var_w) <$> width = None ∨
               (λ _ : Z, var_h) <$> height = None).
  { destruct handle, width, height; cbn; auto.
    destruct Hnull as [?|[?|?]]; discriminate. }
  rewrite (bind_ok _ _ _ _ _ (seek_get_dimensions_null _ _ _ _ _ Hn)).
  destruct width, height; reflexivity.
Qed.

Lemma seek_get_dimensions_vars_eq p h width height (s : State W) :
  handles s !! p = Some h →
  seek_get_dimensions_vars (Some p) (Some width) (Some height) s =
    Ok ((1, Some (SeekHandle.width h), Some (SeekHandle.height h)), s).
Proof.
  intros Hp. unfold seek_get_dimensions_vars.
  assert (Hw : is_Some
                 ((<[var_w := width]> {[var_h := height]} : gmap positive Z)
                    !! var_w)) by (eexists; reflexivity).
  assert (Hh : is_Some
                 ((<[var_w := width]> {[var_h := height]} : gmap positive Z)
                    !! var_h)) by (eexists; reflexivity).
  cbn [from_option fmap option_fmap option_map].
  rewrite (bind_ok _ _ _ _ _ (seek_get_dimensions_eq _ _ _ _ _ _ Hp Hw Hh)).
  reflexivity.
Qed.

Lemma seek_get_dimensions_vars_dangling p width height (s : State W) :
  handles s !! p = None →
  seek_get_dimensions_vars (Some p) (Some width) (Some height) s = Crash UseAfterFree.
Proof.
  intros Hp. unfold seek_get_dimensions_vars.
  apply bind_crash, seek_get_dimensions_dangling, Hp.
Qed.

Lemma seek_close_dangling p (s : State W) :
  handles s !! p = None → seek_close (Some p) s = Crash UseAfterFree.
Proof. intros Hp. unfold seek_close, bind, load. rewrite Hp. reflexivity. Qed.
End Equations.

(** ** Opening a camera *)

Section Open.
Context {W : Type} `{!LibSeek W}.

Lemma handle_open_opened p c k m (hs : gmap positive SeekHandle.t)
    (cs : gmap positive CamClass) (w : W) (tr : list Event) :
  handle_open (mkState (<[p := opened_handle k c m]> hs) (<[c := k]> cs) w tr)
              p (opened_handle k c m) c k.
Proof.
  split; [apply lookup_insert_eq|]. split; [apply owns_opened_handle|].
  apply lookup_insert_eq.
Qed.

Lemma initialized_opened camera_type ffc (s : State W) p c m w1 w2 w3 tr :
  let k := camera_class camera_type in
  handles s !! p = None → cams s !! c = None →
  cam_construct k c ffc (world s) = (true, w1) →
  cam_open k c w1 = (Returned true, w2) →
  cam_read k c Mat_default w2 = (Returned true, m, w3) →
  initialized s (mkState (<[p := opened_handle k c m]> (handles s))
                         (<[c := k]> (cams s)) w3 tr)
              camera_type ffc p m.
Proof.
  intros k Hp Hc Hctor Hopen Hread.
  exists (opened_handle k c m), c, w1, w2.
  split; [exact Hp|]. split; [exact Hc|].
  repeat (split; [reflexivity|]).
  split; [apply handle_open_opened|].
  repeat (split; [assumption|]).
  destruct k; repeat split.
Qed.

(** A handle that [seek_open] returned is initialized. *)
Lemma seek_open_initialized camera_type ffc_path (s : State W) p s' :
  seek_open camera_type ffc_path s = Ok (Some p, s') →
  ∃ m, initialized s s' camera_type (default EmptyString ffc_path) p m.
Proof.
  rewrite seek_open_eq. cbn zeta.
  destruct (cam_construct _ _ _ (world s)) as [[|] w1] eqn:Hctor; cbn [negb];
    [|discriminate].
  destruct (cam_open _ _ w1) as [[[|]|] w2] eqn:Hopen; cbn [negb];
    [|discriminate|discriminate].
  destruct (cam_read _ _ _ w2) as [[[[|]|] m] w3] eqn:Hread; cbn [negb];
    [|discriminate|discriminate].
  intros [= <- <-]. exists m.
  eapply initialized_opened; eauto using fresh_handle, fresh_cam.
Qed.
End Open.

(** C1. What [seek_open] comes to, for every answer of the driver.  When
    the constructor throws, when [open] returns false and when the first
    read returns false, [seek_open] returns null, the handle and the camera
    object it had allocated are freed again, and a device it had opened is
    closed again.  When all three succeed it returns a new handle on an open
    camera whose width and height are those of the matrix the first read
    delivered.  But [open] and the first read are called outside the [try]
    block: when either leaves by an exception, so does [seek_open], and the
    handle and the camera object stay allocated, after a read that threw on
    a device that is still open. *)
Theorem seek_open_outcomes {W : Type} `{!LibSeek W}
    (camera_type : Z) (ffc_path : option string) (s : State W) :
  let k := camera_class camera_type in
  let ffc := default EmptyString ffc_path in
  let p := fresh (dom (handles s)) in
  let c := fresh (dom (cams s)) in
  (∀ w1,
     cam_construct k c ffc (world s) = (false, w1) →
     ∃ s', seek_open camera_type ffc_path s = Ok (None, s') ∧
           released s s' ∧
           trace s' = trace s ++ [EvConstruct k c ffc false]) ∧
  (∀ w1 w2,
     cam_construct k c ffc (world s) = (true, w1) →
     cam_open k c w1 = (Returned false, w2) →
     ∃ s', seek_open camera_type ffc_path s = Ok (None, s') ∧
           released s s' ∧
           trace s' = trace s ++
             [EvConstruct k c ffc true; EvOpen c false; EvDestroy c]) ∧
  (∀ w1 w2 m w3,
     cam_construct k c ffc (world s) = (true, w1) →
     cam_open k c w1 = (Returned true, w2) →
     cam_read k c Mat_default w2 = (Returned false, m, w3) →
     ∃ s', seek_open camera_type ffc_path s = Ok (None, s') ∧
           released s s' ∧
           trace s' = trace s ++
             [EvConstruct k c ffc true; EvOpen c true; EvRead c false;
              EvClose c; EvDestroy c]) ∧
  (∀ w1 w2 m w3,
     cam_construct k c ffc (world s) = (true, w1) →
     cam_open k c w1 = (Returned true, w2) →
     cam_read k c Mat_default w2 = (Returned true, m, w3) →
     ∃ s', seek_open camera_type ffc_path s = Ok (Some p, s') ∧
           initialized s s' camera_type ffc p m) ∧
  (∀ w1 w2,
     cam_construct k c ffc (world s) = (true, w1) →
     cam_open k c w1 = (Thrown, w2) →
     ∃ s', seek_open camera_type ffc_path s = Unwound s' ∧
           leaked s s' p c k ∧
           trace s' = trace s ++ [EvConstruct k c ffc true; EvOpenThrew c]) ∧
  (∀ w1 w2 m w3,
     cam_construct k c ffc (world s) = (true, w1) →
     cam_open k c w1 = (Returned true, w2) →
     cam_read k c Mat_default w2 = (Thrown, m, w3) →
     ∃ s', seek_open camera_type ffc_path s = Unwound s' ∧
           leaked s s' p c k ∧
           trace s' = trace s ++
             [EvConstruct k c ffc true; EvOpen c true; EvReadThrew c]).
Proof.
  intros k ffc p c.
  pose proof (seek_open_eq camera_type ffc_path s) as Heq. cbn zeta in Heq.
  fold k ffc p c in Heq.
  assert (Hp : handles s !! p = None) by apply fresh_handle.
  assert (Hc : cams s !! c = None) by apply fresh_cam.
  assert (Hconstructed : owns (constructed_handle k c) c k)
    by (destruct k; repeat split).
  repeat split.
  - intros w1 Hctor. rewrite Hctor in Heq. cbn [negb] in Heq.
    eexists. split; [exact Heq|]. split; [split|]; reflexivity.
  - intros w1 w2 Hctor Hopen. rewrite Hctor, Hopen in Heq. cbn [negb] in Heq.
    eexists. split; [exact Heq|]. split; [split|]; reflexivity.
  - intros w1 w2 m w3 Hctor Hopen Hread.
    rewrite Hctor, Hopen, Hread in Heq. cbn [negb] in Heq.
    eexists. split; [exact Heq|]. split; [split|]; reflexivity.
  - intros w1 w2 m w3 Hctor Hopen Hread.
    rewrite Hctor, Hopen, Hread in Heq. cbn [negb] in Heq.
    eexists. split; [exact Heq|].
    eapply initialized_opened; eassumption.
  - intros w1 w2 Hctor Hopen. rewrite Hctor, Hopen in Heq. cbn [negb] in Heq.
    eexists. split; [exact Heq|]. split; [|reflexivity].
    split; [exact Hp|]. split; [exact Hc|]. split; [|reflexivity].
    eexists. split; [reflexivity|exact Hconstructed].
  - intros w1 w2 m w3 Hctor Hopen Hread.
    rewrite Hctor, Hopen, Hread in Heq. cbn [negb] in Heq.
    eexists. split; [exact Heq|]. split; [|reflexivity].
    split; [exact Hp|]. split; [exact Hc|]. split; [|reflexivity].
    eexists. split; [reflexivity|exact Hconstructed].
Qed.

(** C9. Every [camera_type] other than [SEEK_CAMERA_PRO] (1), in or out of
    the range of the enumeration, opens the camera exactly as
    [SEEK_CAMERA_COMPACT] (0) does.  It is the compact class that is
    constructed: when its constructor, its [open] and its first read succeed,
    [seek_open] returns a handle whose [compact] pointer owns the camera and
    whose [pro] pointer is null.  No value is turned away: a null result
    comes from a failure of the compact driver only. *)
Theorem seek_open_non_pro_is_compact {W : Type} `{!LibSeek W}
    (camera_type : Z) (ffc_path : option string) (s : State W) :
  camera_type ≠ SEEK_CAMERA_PRO →
  let ffc := default EmptyString ffc_path in
  let p := fresh (dom (handles s)) in
  let c := fresh (dom (cams s)) in
  seek_open camera_type ffc_path s = seek_open SEEK_CAMERA_COMPACT ffc_path s ∧
  (∀ w1 w2 m w3,
     cam_construct SeekThermal c ffc (world s) = (true, w1) →
     cam_open SeekThermal c w1 = (Returned true, w2) →
     cam_read SeekThermal c Mat_default w2 = (Returned true, m, w3) →
     seek_open camera_type ffc_path s =
       Ok (Some p,
           mkState
             (<[p := SeekHandle.mk (Some c) None (Some c) m (cols m) (rows m)]>
                (handles s))
             (<[c := SeekThermal]> (cams s)) w3
             (trace s ++ [EvConstruct SeekThermal c ffc true; EvOpen c true;
                          EvRead c true]))) ∧
  (∀ s',
     seek_open camera_type ffc_path s = Ok (None, s') →
     (∃ w1, cam_construct SeekThermal c ffc (world s) = (false, w1)) ∨
     (∃ w1 w2,
        cam_construct SeekThermal c ffc (world s) = (true, w1) ∧
        cam_open SeekThermal c w1 = (Returned false, w2)) ∨
     (∃ w1 w2 m w3,
        cam_construct SeekThermal c ffc (world s) = (true, w1) ∧
        cam_open SeekThermal c w1 = (Returned true, w2) ∧
        cam_read SeekThermal c Mat_default w2 = (Returned false, m, w3))).
Proof.
  intros Hne ffc p c.
  assert (Hk : camera_class camera_type = SeekThermal).
  { unfold camera_class. destruct (Z.eqb_spec camera_type SEEK_CAMERA_PRO);
      [contradiction|reflexivity]. }
  split; [|split].
  - rewrite !seek_open_eq. cbn zeta. rewrite Hk. reflexivity.
  - intros w1 w2 m w3 Hctor Hopen Hread.
    rewrite seek_open_eq. cbn zeta. rewrite Hk. fold ffc p c.
    rewrite Hctor, Hopen, Hread. reflexivity.
  - intros s'. rewrite seek_open_eq. cbn zeta. rewrite Hk. fold ffc p c.
    destruct (cam_construct SeekThermal c ffc (world s)) as [[|] w1] eqn:Hctor;
      cbn [negb]; [|intros _; left; exists w1; reflexivity].
    destruct (cam_open SeekThermal c w1) as [[[|]|] w2] eqn:Hopen; cbn [negb];
      [|intros _; right; left; exists w1, w2; split; [reflexivity|exact Hopen]
       |discriminate].
    destruct (cam_read SeekThermal c Mat_default w2) as [[[[|]|] m] w3] eqn:Hread;
      cbn [negb]; [discriminate| |discriminate].
    intros _. right. right. exists w1, w2, m, w3.
    split; [reflexivity|]. split; [exact Hopen|exact Hread].
Qed.

(** C10, as the code has it.  [seek_get_dimensions] returns 0 and writes
    nothing when the handle, [width] or [height] is null.  Any other handle
    is read, live or not.  On a live handle, with [width] and [height]
    pointing at ints of the caller, it writes the stored width through
    [width], then the stored height through [height], and returns 1: two
    distinct ints hold the stored width and height afterwards, a single int
    that both pointers refer to holds the stored height, and no other int
    changes.  On a handle that is not live, a closed one for instance, it
    reads freed storage. *)
Theorem seek_get_dimensions_flag {W : Type} `{!LibSeek W}
    (handle : option positive) (width height : option positive)
    (ints : gmap positive Z) (s : State W) :
  (handle = None ∨ width = None ∨ height = None →
   seek_get_dimensions handle width height ints s = Ok ((0, ints), s)) ∧
  (∀ p pw ph,
     handle = Some p → width = Some pw → height = Some ph →
     (∀ h,
        handles s !! p = Some h →
        is_Some (ints !! pw) → is_Some (ints !! ph) →
        let ints' :=
          <[ph := SeekHandle.height h]> (<[pw := SeekHandle.width h]> ints) in
        seek_get_dimensions handle width height ints s = Ok ((1, ints'), s) ∧
        ints' !! ph = Some (SeekHandle.height h) ∧
        (pw ≠ ph → ints' !! pw = Some (SeekHandle.width h)) ∧
        (pw = ph → ints' !! pw = Some (SeekHandle.height h)) ∧
        (∀ q, q ≠ pw → q ≠ ph → ints' !! q = ints !! q)) ∧
     (handles s !! p = None →
      seek_get_dimensions handle width height ints s = Crash UseAfterFree)).
Proof.
  split; [apply seek_get_dimensions_null|].
  intros p pw ph -> -> ->. split.
  - intros h Hp Hw Hh ints'. subst ints'.
    split; [exact (seek_get_dimensions_eq _ _ _ _ _ _ Hp Hw Hh)|].
    split; [apply lookup_insert_eq|]. split; [|split].
    + intros Hne. rewrite lookup_insert_ne by congruence. apply lookup_insert_eq.
    + intros ->. apply lookup_insert_eq.
    + intros q Hqw Hqh. rewrite !lookup_insert_ne by congruence. reflexivity.
  - apply seek_get_dimensions_dangling.
Qed.

(** ** Closing a camera *)

(** C7, as the code has it.  [seek_close] on a null handle does nothing.
    On an open handle it closes the device once, destroys the camera object
    and frees the handle, so that nothing of the session stays allocated.
    The handle is dangling from then on: the wrapper keeps no record of
    closed handles, and a second [seek_close] on it reads freed storage. *)
Theorem seek_close_once {W : Type} `{!LibSeek W} (s : State W) :
  seek_close None s = Ok (tt, s) ∧
  (∀ p h c k,
     handle_open s p h c k →
     ∃ s',
       seek_close (Some p) s = Ok (tt, s') ∧
       handles s' = delete p (handles s) ∧
       cams s' = delete c (cams s) ∧
       trace s' = trace s ++ [EvClose c; EvDestroy c] ∧
       seek_close (Some p) s' = Crash UseAfterFree).
Proof.
  split; [reflexivity|].
  intros p h c k Hopen. eexists. split; [apply (seek_close_eq _ _ _ _ _ Hopen)|].
  repeat (split; [reflexivity|]).
  apply seek_close_dangling. cbn [handles]. apply lookup_delete_eq.
Qed.

(** C8, as the code has it.  After [seek_close] on an open handle the
    handle is dangling, and [seek_get_dimensions] on it (with non-null
    [width] and [height]) reads freed storage: there is no check that turns
    a closed handle into the result 0.  The result 0 is returned for null
    arguments only. *)
Theorem seek_get_dimensions_after_close {W : Type} `{!LibSeek W}
    (s : State W) (p : positive) (h : SeekHandle.t) (c : positive) (k : CamClass) :
  handle_open s p h c k →
  ∃ s',
    seek_close (Some p) s = Ok (tt, s') ∧
    (∀ w0 h0,
       seek_get_dimensions_vars (Some p) (Some w0) (Some h0) s' = Crash UseAfterFree) ∧
    (∀ handle width height width' height' s'',
       seek_get_dimensions_vars handle width height s' = Ok ((0, width', height'), s'') →
       handle = None ∨ width = None ∨ height = None).
Proof.
  intros Hopen. eexists. split; [apply (seek_close_eq _ _ _ _ _ Hopen)|]. split.
  - intros w0 h0. apply seek_get_dimensions_vars_dangling. cbn [handles].
    apply lookup_delete_eq.
  - intros [q|] [w0|] [h0|] w' h' s''; auto.
    set (s1 := mkState _ _ _ _).
    destruct (handles s1 !! q) as [hq|] eqn:Hq.
    + rewrite (seek_get_dimensions_vars_eq _ _ _ _ _ Hq). discriminate.
    + rewrite (seek_get_dimensions_vars_dangling _ _ _ _ Hq). discriminate.
Qed.

(** ** Reading a frame *)

Section Read.
Context {W : Type} `{!LibSeek W}.

Lemma seek_read_frame_inv p buf capacity (s : State W) r out s' :
  0 < capacity →
  seek_read_frame (Some p) (Some buf) capacity s = Ok ((r, out), s') →
  ∃ h c k ok m w,
    handles s !! p = Some h ∧ SeekHandle.camera h = Some c ∧
    cams s !! c = Some k ∧
    cam_read k c (SeekHandle.frame h) (world s) = (Returned ok, m, w) ∧
    s' = after_read p h c ok m w s ∧
    read_frame_case buf capacity ok m r out.
Proof.
  intros Hcap Hrun.
  assert (Hpos : (capacity <=? 0) = false) by (apply Z.leb_gt; lia).
  destruct (handles s !! p) as [h|] eqn:Hp.
  2: { unfold seek_read_frame, bind, load in Hrun.
       rewrite Hpos, Hp in Hrun. discriminate. }
  destruct (SeekHandle.camera h) as [c|] eqn:Hcam.
  2: { unfold seek_read_frame, bind, load in Hrun.
       rewrite Hpos, Hp, Hcam in Hrun. discriminate. }
  destruct (cams s !! c) as [k|] eqn:Hc.
  2: { unfold seek_read_frame, bind, load, call_read in Hrun.
       rewrite Hpos, Hp, Hcam in Hrun. cbn in Hrun.
       rewrite Hp, Hc in Hrun. discriminate. }
  rewrite (seek_read_frame_eq _ _ _ _ _ _ _ Hp Hcam Hc Hcap) in Hrun.
  destruct (cam_read k c (SeekHandle.frame h) (world s)) as [[[ok|] m] w] eqn:Hread;
    [|discriminate].
  exists h, c, k, ok, m, w.
  do 4 (split; [first [reflexivity|assumption]|]).
  cbn zeta in Hrun. destruct ok; cbn [negb] in Hrun.
  - destruct (in_int (rows m * cols m)); cbn [negb] in Hrun; [|discriminate].
    destruct (Z.ltb_spec capacity (rows m * cols m)).
    + injection Hrun as <- <- <-. split; [reflexivity|].
      apply buffer_too_small; [reflexivity|assumption].
    + destruct (data m) as [|x rest] eqn:Hdata; [discriminate|].
      rewrite <- Hdata in *.
      destruct (Z.leb_spec 0 (rows m * cols m)); cbn [andb] in Hrun;
        [|discriminate].
      destruct (Z.leb_spec (rows m * cols m) (Z.of_nat (length (data m))));
        cbn [andb] in Hrun; [|discriminate].
      destruct (Z.leb_spec (rows m * cols m) (Z.of_nat (length buf)));
        [|discriminate].
      injection Hrun as <- <- <-. split; [reflexivity|].
      apply frame_copied; [reflexivity|lia|assumption|assumption].
  - injection Hrun as <- <- <-. split; [reflexivity|].
    apply read_failed. reflexivity.
Qed.

Lemma device_read_open (s : State W) p h c k :
  handles s !! p = Some h → SeekHandle.camera h = Some c → cams s !! c = Some k →
  device_read s (Some p) = Some (cam_read k c (SeekHandle.frame h) (world s)).
Proof.
  intros Hp Hcam Hc. unfold device_read. cbn. rewrite Hp. cbn.
  rewrite Hcam. cbn. rewrite Hc. reflexivity.
Qed.

(** Under its contract [seek_read_frame] returns: no fault, no exception. *)
Lemma seek_read_frame_defined handle out_buffer capacity (s : State W) :
  read_frame_contract s handle out_buffer capacity →
  ∃ r out s', seek_read_frame handle out_buffer capacity s = Ok ((r, out), s').
Proof.
  intros (Hhandle & Hbuf & Hdrv).
  destruct handle as [p|]; [|rewrite seek_read_frame_invalid by auto; eauto].
  destruct out_buffer as [buf|]; [|rewrite seek_read_frame_invalid by auto; eauto].
  destruct (Z.leb_spec capacity 0) as [Hcap|Hcap].
  { rewrite seek_read_frame_invalid by auto. eauto. }
  destruct (Hhandle p eq_refl) as (h & c & k & Hp & (Hcam & _) & Hc).
  rewrite (device_read_open _ _ _ _ _ Hp Hcam Hc) in Hdrv.
  specialize (Hbuf buf eq_refl).
  rewrite (seek_read_frame_eq _ _ _ _ _ _ _ Hp Hcam Hc Hcap).
  destruct (cam_read k c (SeekHandle.frame h) (world s)) as [[a m] w].
  destruct (Hdrv a m w eq_refl) as (ok & -> & Hmat).
  destruct ok; cbn zeta; cbn [negb]; [|eauto].
  destruct (Hmat eq_refl) as [[Hrange Hlen] Hdata].
  replace (in_int (rows m * cols m)) with true; cbn [negb].
  2: { symmetry. unfold in_int, INT_MIN. apply andb_true_iff.
       split; apply Z.leb_le; unfold INT_MAX in *; lia. }
  destruct (Z.ltb_spec capacity (rows m * cols m)); [eauto|].
  destruct (data m) as [|x rest] eqn:Hm; [contradiction|]. rewrite <- Hm in *.
  replace ((0 <=? rows m * cols m)
           && (rows m * cols m <=? Z.of_nat (length (data m)))
           && (rows m * cols m <=? Z.of_nat (length buf))) with true; [eauto|].
  symmetry. rewrite !andb_true_iff. repeat split; apply Z.leb_le; lia.
Qed.
End Read.

(** One side of one of the equivalences between a result code and its
    cause, in a case where the arguments are valid ([Hvalid]). *)
Ltac solve_code Hvalid Hside :=
  first
    [ lia
    | contradiction
    | destruct Hside as (_ & ? & ? & Hside);
      first [ discriminate Hside
            | destruct Hside as [Hside ?];
              first [discriminate Hside | injection Hside as <- <-; lia] ]
    | split; [exact Hvalid|]; eexists _, _;
      first [reflexivity | split; [reflexivity|lia]] ].

(** C4. Under its contract [seek_read_frame] returns.  Whenever it returns,
    its result is -1, -2, -3 or a pixel count that is not negative, and each
    tells its cause apart: -1 exactly when the handle or the buffer is null
    or the capacity is not positive; -2 exactly when the arguments are valid
    and the read on the device failed; -3 exactly when the read succeeded and
    the capacity is less than rows times columns of the frame read; and a
    count, equal to rows times columns, exactly when the read succeeded and
    the frame fits the capacity. *)
Theorem seek_read_frame_codes {W : Type} `{!LibSeek W}
    (handle : option positive) (out_buffer : option (list Z)) (capacity : Z)
    (s : State W) :
  (read_frame_contract s handle out_buffer capacity →
   ∃ r out s', seek_read_frame handle out_buffer capacity s = Ok ((r, out), s')) ∧
  ∀ r out s',
    seek_read_frame handle out_buffer capacity s = Ok ((r, out), s') →
    let invalid := handle = None ∨ out_buffer = None ∨ capacity <= 0 in
    (r = -1 ∨ r = -2 ∨ r = -3 ∨ 0 <= r) ∧
    (r = -1 ↔ invalid) ∧
    (r = -2 ↔ ¬ invalid ∧ ∃ m w, device_read s handle = Some (Returned false, m, w)) ∧
    (r = -3 ↔ ¬ invalid ∧
              ∃ m w, device_read s handle = Some (Returned true, m, w) ∧
                     capacity < rows m * cols m) ∧
    (0 <= r ↔ ¬ invalid ∧
              ∃ m w, device_read s handle = Some (Returned true, m, w) ∧
                     rows m * cols m <= capacity ∧ r = rows m * cols m).
Proof.
  split; [apply seek_read_frame_defined|].
  intros r out s' Hrun invalid.
  assert (Hdec : invalid ∨ ∃ p buf, handle = Some p ∧ out_buffer = Some buf ∧
                                     0 < capacity).
  { subst invalid. destruct handle as [p|]; [|auto].
    destruct out_buffer as [buf|]; [|auto].
    destruct (Z.leb_spec capacity 0); [auto|]. right. eauto. }
  destruct Hdec as [Hbad|(p & buf & -> & -> & Hcap)].
  - rewrite (seek_read_frame_invalid _ _ _ _ Hbad) in Hrun.
    injection Hrun as <- <- <-.
    split; [auto|]. split; [tauto|].
    split; [|split];
      (split; [intros ?; exfalso; lia | intros [Hok _]; contradiction]).
  - assert (Hvalid : ¬ invalid).
    { subst invalid. intros [?|[?|?]]; [discriminate|discriminate|lia]. }
    destruct (seek_read_frame_inv _ _ _ _ _ _ _ Hcap Hrun)
      as (h & c & k & ok & m & w & Hp & Hcam & Hc & Hread & _ & Hcase).
    rewrite (device_read_open _ _ _ _ _ Hp Hcam Hc), Hread.
    destruct Hcase as [-> | -> Hsmall | -> Hfit Hsrc Hdst];
      (split; [lia|]); (split; [|split; [|split]]); split; intros Hside;
      solve_code Hvalid Hside.
Qed.

(** C2, as the code has it.  On an open handle a call of [seek_read_frame]
    that returns a count [n] has read a frame [m] from the device, [n] is
    rows times columns of that frame and fits the capacity, exactly the first
    [n] samples of the buffer were written, in row-major order, and the rest
    of the buffer is as it was.  The count is [width * height] of the handle
    whenever the frame has the handle's geometry; the call itself does not
    compare them. *)
Theorem seek_read_frame_success {W : Type} `{!LibSeek W}
    (p : positive) (h : SeekHandle.t) (c : positive) (k : CamClass)
    (buf : list Z) (capacity : Z) (s : State W)
    (n : Z) (out : option (list Z)) (s' : State W) :
  handle_open s p h c k →
  seek_read_frame (Some p) (Some buf) capacity s = Ok ((n, out), s') →
  0 <= n →
  ∃ m w written,
    cam_read k c (SeekHandle.frame h) (world s) = (Returned true, m, w) ∧
    n = rows m * cols m ∧ n <= capacity ∧
    out = Some written ∧
    length written = length buf ∧
    take (Z.to_nat n) written = take (Z.to_nat n) (data m) ∧
    length (take (Z.to_nat n) written) = Z.to_nat n ∧
    drop (Z.to_nat n) written = drop (Z.to_nat n) buf ∧
    (∀ i j, 0 <= i < rows m → 0 <= j < cols m →
       is_Some (Mat_at m i j) ∧
       written !! Z.to_nat (i * cols m + j) = Mat_at m i j) ∧
    (rows m = SeekHandle.height h → cols m = SeekHandle.width h →
       n = SeekHandle.width h * SeekHandle.height h).
Proof.
  intros (Hp & (Hcam & _) & Hc) Hrun Hn.
  assert (Hcap : 0 < capacity).
  { destruct (Z.leb_spec capacity 0) as [Hle|]; [|assumption].
    rewrite seek_read_frame_invalid in Hrun by auto.
    injection Hrun as <- _ _. lia. }
  destruct (seek_read_frame_inv _ _ _ _ _ _ _ Hcap Hrun)
    as (h' & c' & k' & ok & m & w & Hp' & Hcam' & Hc' & Hread & _ & Hcase).
  rewrite Hp in Hp'. injection Hp' as <-.
  rewrite Hcam in Hcam'. injection Hcam' as <-.
  rewrite Hc in Hc'. injection Hc' as <-.
  destruct Hcase as [_ | _ _ | -> Hfit Hsrc Hdst]; [lia|lia|].
  set (n := rows m * cols m) in *.
  assert (Hlen : length (take (Z.to_nat n) (data m)) = Z.to_nat n).
  { apply length_take_le. lia. }
  exists m, w, (take (Z.to_nat n) (data m) ++ drop (Z.to_nat n) buf).
  split; [exact Hread|]. split; [reflexivity|]. split; [lia|].
  split; [reflexivity|].
  split; [rewrite length_app, Hlen, length_drop; lia|].
  split; [apply take_app_length'; symmetry; exact Hlen|].
  split; [rewrite take_app_length' by (symmetry; exact Hlen); exact Hlen|].
  split; [apply drop_app_length'; symmetry; exact Hlen|].
  split.
  - intros i j Hi Hj. unfold Mat_at.
    assert (Hidx : (Z.to_nat (i * cols m + j) < Z.to_nat n)%nat).
    { subst n. apply Z2Nat.inj_lt; nia. }
    split; [apply lookup_lt_is_Some; lia|].
    rewrite lookup_app_l by (rewrite Hlen; exact Hidx).
    apply lookup_take_lt, Hidx.
  - intros Hrows Hcols. subst n. rewrite Hrows, Hcols. lia.
Qed.

(** C3, as the code has it.  On an open handle with width and height [w]
    and [h], [w * h] being an [int], a non-null buffer and a capacity with
    [0 < capacity < w * h], the call reads from the device first.  When that read fails the result
    is -2; when it delivers a frame of the handle's geometry the result is
    -3.  Either way nothing is written to the buffer. *)
Theorem seek_read_frame_too_small {W : Type} `{!LibSeek W}
    (p : positive) (h : SeekHandle.t) (c : positive) (k : CamClass)
    (buf : list Z) (capacity : Z) (s : State W) (ok : bool) (m : Mat) (w : W) :
  handle_open s p h c k →
  0 < capacity < SeekHandle.width h * SeekHandle.height h →
  SeekHandle.width h * SeekHandle.height h <= INT_MAX →
  cam_read k c (SeekHandle.frame h) (world s) = (Returned ok, m, w) →
  (ok = false →
   seek_read_frame (Some p) (Some buf) capacity s =
     Ok ((-2, Some buf), after_read p h c false m w s)) ∧
  (ok = true → rows m = SeekHandle.height h → cols m = SeekHandle.width h →
   seek_read_frame (Some p) (Some buf) capacity s =
     Ok ((-3, Some buf), after_read p h c true m w s)).
Proof.
  intros (Hp & (Hcam & _) & Hc) [Hcap Hsmall] Hint Hread.
  rewrite (seek_read_frame_eq _ _ _ _ _ _ _ Hp Hcam Hc Hcap), Hread. cbn zeta.
  split; intros ->; cbn [negb]; [reflexivity|].
  intros Hrows Hcols. rewrite Hrows, Hcols.
  replace (in_int _) with true; cbn [negb].
  2: { symmetry. unfold in_int, INT_MIN. apply andb_true_iff.
       split; apply Z.leb_le; lia. }
  replace (capacity <? _) with true by (symmetry; apply Z.ltb_lt; lia).
  reflexivity.
Qed.

(** ** A session: calls in sequence *)

Section Session.
Context {W : Type} `{!LibSeek W}.

Lemma keeps_geometry_refl p (s : State W) : keeps_geometry p s s.
Proof. intros h Hp. exists h. auto. Qed.

Lemma keeps_geometry_trans p (s1 s2 s3 : State W) :
  keeps_geometry p s1 s2 → keeps_geometry p s2 s3 → keeps_geometry p s1 s3.
Proof.
  intros H12 H23 h Hp. destruct (H12 h Hp) as (h2 & Hp2 & Hw2 & Hh2 & Hc2).
  destruct (H23 h2 Hp2) as (h3 & Hp3 & Hw3 & Hh3 & Hc3).
  exists h3. split; [exact Hp3|]. repeat split; congruence.
Qed.

Lemma keeps_geometry_handles p (s s' : State W) :
  handles s' = handles s → keeps_geometry p s s'.
Proof. intros Heq h Hp. exists h. rewrite Heq. auto. Qed.

Lemma seek_open_keeps p camera_type ffc_path (s : State W) r s' :
  seek_open camera_type ffc_path s = Ok (r, s') → keeps_geometry p s s'.
Proof.
  rewrite seek_open_eq. cbn zeta.
  destruct (cam_construct _ _ _ (world s)) as [[|] w1]; cbn [negb].
  2: { intros [= <- <-]. apply keeps_geometry_handles. reflexivity. }
  destruct (cam_open _ _ w1) as [[[|]|] w2]; cbn [negb];
    [| |discriminate].
  2: { intros [= <- <-]. apply keeps_geometry_handles. reflexivity. }
  destruct (cam_read _ _ _ w2) as [[[[|]|] m] w3]; cbn [negb];
    [| |discriminate].
  2: { intros [= <- <-]. apply keeps_geometry_handles. reflexivity. }
  intros [= <- <-] h Hp. exists h. cbn [handles].
  rewrite lookup_insert_ne; [auto|].
  intros Heq. rewrite <- Heq, fresh_handle in Hp. discriminate.
Qed.

Lemma seek_get_dimensions_vars_state handle width height (s : State W) r s' :
  seek_get_dimensions_vars handle width height s = Ok (r, s') → s' = s.
Proof.
  destruct handle as [q|], width as [w0|], height as [h0|];
    try (rewrite seek_get_dimensions_vars_null by auto;
         intros [= _ <-]; reflexivity).
  destruct (handles s !! q) eqn:Hq.
  - rewrite (seek_get_dimensions_vars_eq _ _ _ _ _ Hq).
    intros [= _ <-]. reflexivity.
  - rewrite (seek_get_dimensions_vars_dangling _ _ _ _ Hq). discriminate.
Qed.

Lemma seek_read_frame_keeps p handle out_buffer capacity (s : State W) r s' :
  seek_read_frame handle out_buffer capacity s = Ok (r, s') →
  keeps_geometry p s s'.
Proof.
  intros Hrun. destruct r as [r out].
  destruct handle as [q|], out_buffer as [buf|];
    try (rewrite seek_read_frame_invalid in Hrun by auto;
         injection Hrun as _ _ <-; apply keeps_geometry_refl).
  destruct (Z.leb_spec capacity 0) as [Hle|Hcap].
  { rewrite seek_read_frame_invalid in Hrun by auto.
    injection Hrun as _ _ <-. apply keeps_geometry_refl. }
  destruct (seek_read_frame_inv _ _ _ _ _ _ _ Hcap Hrun)
    as (hq & c & k & ok & m & w & Hq & _ & _ & _ & -> & _).
  intros h Hp. unfold after_read. cbn [handles].
  destruct (decide (q = p)) as [->|Hne].
  - rewrite Hq in Hp. injection Hp as <-.
    exists (SeekHandle.set_frame m hq). rewrite lookup_insert_eq. auto.
  - exists h. rewrite lookup_insert_ne by exact Hne. auto.
Qed.

Lemma unique_ptr_destroy_handles o (s : State W) u s' :
  unique_ptr_destroy o s = Ok (u, s') → handles s' = handles s.
Proof.
  unfold unique_ptr_destroy. destruct o as [c|]; [|intros [= _ <-]; reflexivity].
  destruct (cams s !! c); [|discriminate]. intros [= _ <-]. reflexivity.
Qed.

Lemma delete_SeekHandle_handles q (s : State W) u s' :
  delete_SeekHandle q s = Ok (u, s') → handles s' = delete q (handles s).
Proof.
  unfold delete_SeekHandle. destruct (handles s !! q) as [h|]; [|discriminate].
  intros Hrun.
  apply bind_inv in Hrun as (? & s1 & H1 & Hrun).
  apply bind_inv in Hrun as (? & s2 & H2 & Hrun).
  injection Hrun as _ <-. cbn [handles set_handles].
  rewrite (unique_ptr_destroy_handles _ _ _ _ H2).
  rewrite (unique_ptr_destroy_handles _ _ _ _ H1). reflexivity.
Qed.

Lemma seek_close_handles q (s : State W) u s' :
  seek_close (Some q) s = Ok (u, s') → handles s' = delete q (handles s).
Proof.
  unfold seek_close. intros Hrun.
  apply bind_inv in Hrun as (h & s0 & Hload & Hrun).
  unfold load in Hload. destruct (handles s !! q); [|discriminate].
  injection Hload as _ <-.
  apply bind_inv in Hrun as (? & s1 & Hcam & Hrun).
  rewrite (delete_SeekHandle_handles _ _ _ _ Hrun).
  destruct (SeekHandle.camera h) as [c|]; [|injection Hcam as _ <-; reflexivity].
  apply bind_inv in Hcam as (? & s2 & Hclose & Hcam).
  apply bind_inv in Hcam as (h2 & s3 & Hload & Hstore).
  unfold call_close in Hclose. destruct (cams s !! c); [|discriminate].
  injection Hclose as _ <-.
  unfold load in Hload. cbn [handles after_call] in Hload.
  destruct (handles s !! q) eqn:Hq; [|discriminate]. injection Hload as _ <-.
  unfold store in Hstore. cbn [handles after_call] in Hstore.
  rewrite Hq in Hstore. injection Hstore as Hs1. subst s1.
  cbn [handles set_handles after_call]. apply delete_insert_eq.
Qed.

Lemma seek_close_keeps p handle (s : State W) u s' :
  handle ≠ Some p →
  seek_close handle s = Ok (u, s') → keeps_geometry p s s'.
Proof.
  intros Hne Hrun. destruct handle as [q|].
  - intros h Hp. exists h. rewrite (seek_close_handles _ _ _ _ Hrun).
    rewrite lookup_delete_ne by congruence. auto.
  - injection Hrun as _ <-. apply keeps_geometry_refl.
Qed.

Lemma run_call_keeps p call (s : State W) s' :
  call ≠ CallClose (Some p) →
  run_call call s = Ok (tt, s') → keeps_geometry p s s'.
Proof.
  intros Hne Hrun. destruct call; cbn [run_call] in Hrun.
  - apply bind_inv in Hrun as (r & s1 & Hrun & [= <-]).
    exact (seek_open_keeps _ _ _ _ _ _ Hrun).
  - refine (seek_close_keeps _ _ _ _ _ _ Hrun).
    intros ->. apply Hne. reflexivity.
  - apply bind_inv in Hrun as (r & s1 & Hrun & [= <-]).
    rewrite (seek_get_dimensions_vars_state _ _ _ _ _ _ Hrun).
    apply keeps_geometry_refl.
  - apply bind_inv in Hrun as (r & s1 & Hrun & [= <-]).
    exact (seek_read_frame_keeps _ _ _ _ _ _ _ Hrun).
Qed.

Lemma run_calls_keeps p calls (s : State W) s' :
  Forall (λ call, call ≠ CallClose (Some p)) calls →
  run_calls calls s = Ok (tt, s') → keeps_geometry p s s'.
Proof.
  intros Hcalls. revert s.
  induction Hcalls as [|call rest Hcall _ IH]; intros s Hrun.
  - injection Hrun as <-. apply keeps_geometry_refl.
  - cbn [run_calls] in Hrun. apply bind_inv in Hrun as ([] & s1 & Hstep & Hrun).
    eapply keeps_geometry_trans; [exact (run_call_keeps _ _ _ _ Hcall Hstep)|].
    exact (IH _ Hrun).
Qed.
End Session.

(** C5. A handle that [seek_open] returned reports, through
    [seek_get_dimensions], the columns and rows of the matrix that the first
    read (the one inside [seek_open]) delivered.  It goes on reporting them
    after any sequence of calls that does not close that handle: calls of
    [seek_read_frame] on it, whatever they return, and calls on other
    handles. *)
Theorem dimensions_stable {W : Type} `{!LibSeek W}
    (camera_type : Z) (ffc_path : option string) (s : State W)
    (p : positive) (s1 : State W) :
  seek_open camera_type ffc_path s = Ok (Some p, s1) →
  ∃ m,
    initialized s s1 camera_type (default EmptyString ffc_path) p m ∧
    ∀ calls s2 w0 h0,
      Forall (λ call, call ≠ CallClose (Some p)) calls →
      run_calls calls s1 = Ok (tt, s2) →
      seek_get_dimensions_vars (Some p) (Some w0) (Some h0) s2 =
        Ok ((1, Some (cols m), Some (rows m)), s2).
Proof.
  intros Hopen. destruct (seek_open_initialized _ _ _ _ _ Hopen) as (m & Hinit).
  exists m. split; [exact Hinit|].
  intros calls s2 w0 h0 Hcalls Hrun.
  destruct Hinit as (h & c & w1 & w2 & _ & _ & _ & _ & (Hp & _) & _ & _ & _ & _
                     & Hwidth & Hheight).
  destruct (run_calls_keeps p _ _ _ Hcalls Hrun h Hp) as (h2 & Hp2 & Hw2 & Hh2 & _).
  rewrite (seek_get_dimensions_vars_eq _ _ _ _ _ Hp2). congruence.
Qed.

(** C6, as the code has it.  A call of [seek_read_frame] that returns the
    read-failure code leaves the handle open, with its width and height as
    they were; nothing is latched.  After any sequence of further calls that
    does not close the handle, the handle is still there with that width and
    height, and every call on it with a buffer and a positive capacity asks
    the device again, once, and returns -2 exactly when that new read
    fails. *)
Theorem seek_read_frame_retries {W : Type} `{!LibSeek W}
    (p : positive) (h : SeekHandle.t) (c : positive) (k : CamClass)
    (buf : list Z) (capacity : Z) (s : State W)
    (out : option (list Z)) (s1 : State W) :
  handle_open s p h c k →
  seek_read_frame (Some p) (Some buf) capacity s = Ok ((-2, out), s1) →
  (∃ h1,
     handle_open s1 p h1 c k ∧
     SeekHandle.width h1 = SeekHandle.width h ∧
     SeekHandle.height h1 = SeekHandle.height h) ∧
  trace s1 = trace s ++ [EvRead c false] ∧
  ∀ calls s2,
    Forall (λ call, call ≠ CallClose (Some p)) calls →
    run_calls calls s1 = Ok (tt, s2) →
    (∃ h2,
       handles s2 !! p = Some h2 ∧
       SeekHandle.camera h2 = Some c ∧
       SeekHandle.width h2 = SeekHandle.width h ∧
       SeekHandle.height h2 = SeekHandle.height h) ∧
    ∀ buf' capacity' r' out' s3,
      0 < capacity' →
      seek_read_frame (Some p) (Some buf') capacity' s2 = Ok ((r', out'), s3) →
      ∃ ok, trace s3 = trace s2 ++ [EvRead c ok] ∧ (r' = -2 ↔ ok = false).
Proof.
  intros (Hp & Howns & Hc) Hrun.
  assert (Hcap : 0 < capacity).
  { destruct (Z.leb_spec capacity 0) as [Hle|]; [|assumption].
    rewrite seek_read_frame_invalid in Hrun by auto. discriminate. }
  destruct (seek_read_frame_inv _ _ _ _ _ _ _ Hcap Hrun)
    as (h' & c' & k' & ok & m & w & Hp' & Hcam' & Hc' & Hread & -> & Hcase).
  rewrite Hp in Hp'. injection Hp' as <-.
  destruct Howns as (Hcam & Hpro & Hcompact).
  rewrite Hcam in Hcam'. injection Hcam' as <-.
  rewrite Hc in Hc'. injection Hc' as <-.
  assert (Hfailed : ok = false).
  { inversion Hcase as [Hok | Hok Hsmall | Hok Hfit Hdata Hroom]; [exact Hok|].
    exfalso. lia. }
  subst ok.
  assert (Hopen1 : handle_open (after_read p h c false m w s) p
                     (SeekHandle.set_frame m h) c k).
  { split; [apply lookup_insert_eq|]. split; [|exact Hc].
    repeat split; assumption. }
  split; [|split; [reflexivity|]].
  { exists (SeekHandle.set_frame m h).
    split; [exact Hopen1|]. split; reflexivity. }
  intros calls s2 Hcalls Hcalls_run.
  destruct Hopen1 as (Hp1 & (Hcam1 & _) & _).
  destruct (run_calls_keeps p _ _ _ Hcalls Hcalls_run _ Hp1)
    as (h2 & Hp2 & Hw2 & Hh2 & Hc2).
  split.
  { exists h2. split; [exact Hp2|]. split; [congruence|]. split; assumption. }
  intros buf' capacity' r' out' s3 Hcap' Hrun'.
  destruct (seek_read_frame_inv _ _ _ _ _ _ _ Hcap' Hrun')
    as (h3 & c3 & k3 & ok' & m' & w' & Hp3 & Hcam3 & _ & _ & -> & Hcase').
  rewrite Hp2 in Hp3. injection Hp3 as <-.
  rewrite Hc2, Hcam1 in Hcam3. injection Hcam3 as <-.
  exists ok'. split; [reflexivity|].
  destruct Hcase' as [-> | -> ? | -> ? ? ?].
  - split; reflexivity.
  - split; discriminate.
  - split; [intros ?; exfalso; lia|discriminate].
Qed.

Lemma session1_open script :
  seek_open 0 None (Scripted.boot (Session1.device (Some Scripted.frame23 :: script)))
  = Ok (Some Session1.H, Session1.session Scripted.frame23 script []).
Proof. rewrite seek_open_eq. reflexivity. Qed.

Lemma session1_handle_open frm script evs :
  handle_open (Session1.session frm script evs) Session1.H (Session1.handle23 frm)
    Session1.H SeekThermal.
Proof. repeat split. Qed.

(** ** The invariant of the free store *)

Section Invariant.
Context {W : Type} `{!LibSeek W}.

Lemma wf_same (s s' : State W) :
  handles s' = handles s → cams s' = cams s → wf s → wf s'.
Proof. unfold wf. intros -> ->. auto. Qed.

Lemma wf_empty (w : W) tr : wf (mkState ∅ ∅ w tr).
Proof.
  split; [|split]; cbn [handles cams].
  - intros p h Hp. rewrite lookup_empty in Hp. discriminate.
  - intros p q hp hq c Hp. rewrite lookup_empty in Hp. discriminate.
  - intros c k Hc. rewrite lookup_empty in Hc. discriminate.
Qed.

Lemma wf_open (s : State W) p c k m (w : W) tr :
  handles s !! p = None → cams s !! c = None → wf s →
  wf (mkState (<[p := opened_handle k c m]> (handles s)) (<[c := k]> (cams s)) w tr).
Proof.
  intros Hp Hc (Hlive & Huniq & Hleak).
  assert (Hother : ∀ q hq, handles s !! q = Some hq → SeekHandle.camera hq ≠ Some c).
  { intros q hq Hq Hcam. destruct (Hlive q hq Hq) as (c' & k' & (Hcam' & _) & Hc').
    rewrite Hcam in Hcam'. injection Hcam' as <-. congruence. }
  assert (Hnew : SeekHandle.camera (opened_handle k c m) = Some c)
    by (destruct k; reflexivity).
  split; [|split]; cbn [handles cams].
  - intros q hq Hq. destruct (decide (p = q)) as [<-|Hne].
    + rewrite lookup_insert_eq in Hq. injection Hq as <-.
      exists c, k. split; [apply owns_opened_handle|apply lookup_insert_eq].
    + rewrite lookup_insert_ne in Hq by exact Hne.
      destruct (Hlive q hq Hq) as (c' & k' & Howns & Hc').
      exists c', k'. split; [exact Howns|].
      rewrite lookup_insert_ne; [exact Hc'|congruence].
  - intros q1 q2 h1 h2 c' H1 H2 Hc1 Hc2.
    destruct (decide (p = q1)) as [<-|Hne1], (decide (p = q2)) as [<-|Hne2];
      [reflexivity| | |].
    + rewrite lookup_insert_eq in H1. injection H1 as <-.
      rewrite lookup_insert_ne in H2 by exact Hne2.
      rewrite Hnew in Hc1. injection Hc1 as <-.
      destruct (Hother _ _ H2 Hc2).
    + rewrite lookup_insert_eq in H2. injection H2 as <-.
      rewrite lookup_insert_ne in H1 by exact Hne1.
      rewrite Hnew in Hc2. injection Hc2 as <-.
      destruct (Hother _ _ H1 Hc1).
    + rewrite lookup_insert_ne in H1 by exact Hne1.
      rewrite lookup_insert_ne in H2 by exact Hne2. eauto.
  - intros c' k' Hc'. destruct (decide (c = c')) as [<-|Hne].
    + exists p, (opened_handle k c m). split; [apply lookup_insert_eq|exact Hnew].
    + rewrite lookup_insert_ne in Hc' by exact Hne.
      destruct (Hleak c' k' Hc') as (q & hq & Hq & Hcam).
      exists q, hq. split; [|exact Hcam].
      rewrite lookup_insert_ne; [exact Hq|congruence].
Qed.

Lemma wf_read (s : State W) p h c ok m w :
  handles s !! p = Some h → wf s → wf (after_read p h c ok m w s).
Proof.
  intros Hp (Hlive & Huniq & Hleak).
  assert (Hget : ∀ q hq, <[p := SeekHandle.set_frame m h]> (handles s) !! q = Some hq →
            ∃ hq', handles s !! q = Some hq' ∧
                   SeekHandle.camera hq' = SeekHandle.camera hq ∧
                   ∀ c' k', owns hq' c' k' → owns hq c' k').
  { intros q hq Hq. destruct (decide (p = q)) as [<-|Hne].
    - rewrite lookup_insert_eq in Hq. injection Hq as <-. exists h. auto.
    - rewrite lookup_insert_ne in Hq by exact Hne. exists hq. auto. }
  split; [|split]; unfold after_read; cbn [handles cams].
  - intros q hq Hq. destruct (Hget q hq Hq) as (hq' & Hq' & _ & Howns).
    destruct (Hlive q hq' Hq') as (c' & k' & Ho & Hc'). eauto.
  - intros q1 q2 h1 h2 c' H1 H2 Hc1 Hc2.
    destruct (Hget _ _ H1) as (h1' & H1' & E1 & _).
    destruct (Hget _ _ H2) as (h2' & H2' & E2 & _).
    apply (Huniq q1 q2 h1' h2' c' H1' H2'); congruence.
  - intros c' k' Hc'. destruct (Hleak c' k' Hc') as (q & hq & Hq & Hcam).
    destruct (decide (p = q)) as [<-|Hne].
    + exists p, (SeekHandle.set_frame m h). rewrite lookup_insert_eq.
      rewrite Hp in Hq. injection Hq as <-. auto.
    + exists q, hq. rewrite lookup_insert_ne by exact Hne. auto.
Qed.

Lemma wf_close (s : State W) p h c k (w : W) tr :
  handle_open s p h c k → wf s →
  wf (mkState (delete p (handles s)) (delete c (cams s)) w tr).
Proof.
  intros (Hp & (Hcam & _) & Hc) (Hlive & Huniq & Hleak).
  split; [|split]; cbn [handles cams].
  - intros q hq Hq. apply lookup_delete_Some in Hq as [Hne Hq].
    destruct (Hlive q hq Hq) as (c' & k' & Howns & Hc').
    exists c', k'. split; [exact Howns|].
    rewrite lookup_delete_ne; [exact Hc'|].
    intros <-. apply Hne. destruct Howns as (Hcam' & _). eauto.
  - intros q1 q2 h1 h2 c' H1 H2.
    apply lookup_delete_Some in H1 as [_ H1].
    apply lookup_delete_Some in H2 as [_ H2]. eauto.
  - intros c' k' Hc'. apply lookup_delete_Some in Hc' as [Hne Hc'].
    destruct (Hleak c' k' Hc') as (q & hq & Hq & Hcam').
    exists q, hq. split; [|exact Hcam'].
    rewrite lookup_delete_ne; [exact Hq|].
    intros <-. rewrite Hp in Hq. injection Hq as <-. congruence.
Qed.

(** Each exported call that returns keeps the invariant. *)
Lemma wf_run_call call (s : State W) s' :
  wf s → run_call call s = Ok (tt, s') → wf s'.
Proof.
  intros Hwf Hrun. destruct call; cbn [run_call] in Hrun.
  - apply bind_inv in Hrun as (r & s1 & Hrun & [= <-]).
    rewrite seek_open_eq in Hrun. cbn zeta in Hrun.
    destruct (cam_construct _ _ _ (world s)) as [[|] w1]; cbn [negb] in Hrun.
    2: { injection Hrun as _ <-. exact (wf_same _ _ eq_refl eq_refl Hwf). }
    destruct (cam_open _ _ w1) as [[[|]|] w2]; cbn [negb] in Hrun;
    [| |discriminate].
    2: { injection Hrun as _ <-. exact (wf_same _ _ eq_refl eq_refl Hwf). }
    destruct (cam_read _ _ _ w2) as [[[[|]|] m] w3]; cbn [negb] in Hrun;
    [| |discriminate].
    2: { injection Hrun as _ <-. exact (wf_same _ _ eq_refl eq_refl Hwf). }
    injection Hrun as _ <-. apply wf_open; auto using fresh_handle, fresh_cam.
  - destruct handle as [q|]; [|injection Hrun as <-; exact Hwf].
    destruct (handles s !! q) as [h|] eqn:Hq.
    2: { rewrite (seek_close_dangling _ _ Hq) in Hrun. discriminate. }
    destruct Hwf as (Hlive & Huniq & Hleak).
    destruct (Hlive q h Hq) as (c & k & Howns & Hc).
    assert (Hopen : handle_open s q h c k)
      by (split; [exact Hq|split; [exact Howns|exact Hc]]).
    rewrite (seek_close_eq _ _ _ _ _ Hopen) in Hrun. injection Hrun as <-.
    eapply wf_close; [exact Hopen|]. repeat split; assumption.
  - apply bind_inv in Hrun as (r & s1 & Hrun & [= <-]).
    rewrite (seek_get_dimensions_vars_state _ _ _ _ _ _ Hrun). exact Hwf.
  - apply bind_inv in Hrun as ([r out] & s1 & Hrun & [= <-]).
    destruct handle as [q|], out_buffer as [buf|];
      try (rewrite seek_read_frame_invalid in Hrun by auto;
           injection Hrun as _ _ <-; exact Hwf).
    destruct (Z.leb_spec capacity 0) as [Hle|Hcap].
    { rewrite seek_read_frame_invalid in Hrun by auto.
      injection Hrun as _ _ <-. exact Hwf. }
    destruct (seek_read_frame_inv _ _ _ _ _ _ _ Hcap Hrun)
      as (hq & c & k & ok & m & w & Hq & _ & _ & _ & -> & _).
    apply wf_read; assumption.
Qed.

(** Every state a session reaches from an empty free store satisfies the
    invariant. *)
Lemma wf_run_calls calls (s : State W) s' :
  wf s → run_calls calls s = Ok (tt, s') → wf s'.
Proof.
  revert s. induction calls as [|call rest IH]; intros s Hwf Hrun.
  - injection Hrun as <-. exact Hwf.
  - cbn [run_calls] in Hrun. apply bind_inv in Hrun as ([] & s1 & Hstep & Hrun).
    exact (IH _ (wf_run_call _ _ _ Hwf Hstep) Hrun).
Qed.

(** In such a state every live handle is an open handle. *)
Lemma wf_handle_open (s : State W) p h :
  wf s → handles s !! p = Some h → ∃ c k, handle_open s p h c k.
Proof.
  intros (Hlive & _) Hp. destruct (Hlive p h Hp) as (c & k & Howns & Hc).
  exists c, k. split; [exact Hp|split; [exact Howns|exact Hc]].
Qed.
End Invariant.

(** ** Concrete runs *)

(** C1 on a driver whose [open] throws, and on one whose first read
    throws: [seek_open] is left by the exception, and the handle and the
    camera object it had allocated stay allocated. *)
Lemma seek_open_outcomes_witness :
  (cam_construct SeekThermal 1%positive EmptyString (Throwing.mk Thrown Thrown)
   = (true, Throwing.mk Thrown Thrown) ∧
   cam_open SeekThermal 1%positive (Throwing.mk Thrown Thrown)
   = (Thrown, Throwing.mk Thrown Thrown) ∧
   cam_construct SeekThermal 1%positive EmptyString
     (Throwing.mk (Returned true) Thrown)
   = (true, Throwing.mk (Returned true) Thrown) ∧
   cam_open SeekThermal 1%positive (Throwing.mk (Returned true) Thrown)
   = (Returned true, Throwing.mk (Returned true) Thrown) ∧
   cam_read SeekThermal 1%positive Mat_default (Throwing.mk (Returned true) Thrown)
   = (Thrown, Mat_default, Throwing.mk (Returned true) Thrown)) ∧
  (∃ s',
     seek_open 0 None (mkState ∅ ∅ (Throwing.mk Thrown Thrown) []) = Unwound s' ∧
     leaked (mkState ∅ ∅ (Throwing.mk Thrown Thrown) []) s'
       1%positive 1%positive SeekThermal ∧
     trace s' = [EvConstruct SeekThermal 1%positive EmptyString true;
                 EvOpenThrew 1%positive]) ∧
  (∃ s',
     seek_open 0 None (mkState ∅ ∅ (Throwing.mk (Returned true) Thrown) [])
     = Unwound s' ∧
     leaked (mkState ∅ ∅ (Throwing.mk (Returned true) Thrown) []) s'
       1%positive 1%positive SeekThermal ∧
     trace s' = [EvConstruct SeekThermal 1%positive EmptyString true;
                 EvOpen 1%positive true; EvReadThrew 1%positive]).
Proof.
  assert (Hctor1 : cam_construct SeekThermal 1%positive EmptyString
                     (Throwing.mk Thrown Thrown)
                   = (true, Throwing.mk Thrown Thrown)) by reflexivity.
  assert (Hopen1 : cam_open SeekThermal 1%positive (Throwing.mk Thrown Thrown)
                   = (Thrown, Throwing.mk Thrown Thrown)) by reflexivity.
  assert (Hctor2 : cam_construct SeekThermal 1%positive EmptyString
                     (Throwing.mk (Returned true) Thrown)
                   = (true, Throwing.mk (Returned true) Thrown)) by reflexivity.
  assert (Hopen2 : cam_open SeekThermal 1%positive
                     (Throwing.mk (Returned true) Thrown)
                   = (Returned true, Throwing.mk (Returned true) Thrown))
    by reflexivity.
  assert (Hread2 : cam_read SeekThermal 1%positive Mat_default
                     (Throwing.mk (Returned true) Thrown)
                   = (Thrown, Mat_default, Throwing.mk (Returned true) Thrown))
    by reflexivity.
  split; [repeat (split; [assumption|]); assumption|]. split.
  - exact (proj1 (proj2 (proj2 (proj2 (proj2
             (seek_open_outcomes 0 None
                (mkState ∅ ∅ (Throwing.mk Thrown Thrown) []))))))
             _ _ Hctor1 Hopen1).
  - exact (proj2 (proj2 (proj2 (proj2 (proj2
             (seek_open_outcomes 0 None
                (mkState ∅ ∅ (Throwing.mk (Returned true) Thrown) []))))))
             _ _ _ _ Hctor2 Hopen2 Hread2).
Defined.

(** C9 at the values 2 and -1: on a device where everything succeeds both
    open a compact camera, as 0 does. *)
Lemma seek_open_non_pro_is_compact_witness :
  (2 ≠ SEEK_CAMERA_PRO ∧ -1 ≠ SEEK_CAMERA_PRO ∧
   cam_construct SeekThermal Session1.H EmptyString
     (Session1.device [Some Scripted.frame23])
   = (true, Session1.device [Some Scripted.frame23]) ∧
   cam_open SeekThermal Session1.H (Session1.device [Some Scripted.frame23])
   = (Returned true, Session1.device [Some Scripted.frame23]) ∧
   cam_read SeekThermal Session1.H Mat_default
     (Session1.device [Some Scripted.frame23])
   = (Returned true, Scripted.frame23, Session1.device [])) ∧
  seek_open 2 None (Scripted.boot (Session1.device [Some Scripted.frame23]))
  = Ok (Some Session1.H, Session1.session Scripted.frame23 [] []) ∧
  seek_open (-1) None (Scripted.boot (Session1.device [Some Scripted.frame23]))
  = Ok (Some Session1.H, Session1.session Scripted.frame23 [] []) ∧
  SeekHandle.compact (Session1.handle23 Scripted.frame23) = Some Session1.H ∧
  SeekHandle.pro (Session1.handle23 Scripted.frame23) = None ∧
  cams (Session1.session Scripted.frame23 [] []) !! Session1.H = Some SeekThermal.
Proof.
  assert (H2 : 2 ≠ SEEK_CAMERA_PRO) by (unfold SEEK_CAMERA_PRO; lia).
  assert (Hm : -1 ≠ SEEK_CAMERA_PRO) by (unfold SEEK_CAMERA_PRO; lia).
  assert (Hctor : cam_construct SeekThermal Session1.H EmptyString
                    (Session1.device [Some Scripted.frame23])
                  = (true, Session1.device [Some Scripted.frame23]))
    by reflexivity.
  assert (Hopen : cam_open SeekThermal Session1.H
                    (Session1.device [Some Scripted.frame23])
                  = (Returned true, Session1.device [Some Scripted.frame23]))
    by reflexivity.
  assert (Hread : cam_read SeekThermal Session1.H Mat_default
                    (Session1.device [Some Scripted.frame23])
                  = (Returned true, Scripted.frame23, Session1.device []))
    by reflexivity.
  split; [repeat (split; [assumption|]); assumption|].
  split; [|split; [|repeat split; reflexivity]].
  - exact (proj1 (proj2 (seek_open_non_pro_is_compact 2 None
                           (Scripted.boot (Session1.device [Some Scripted.frame23]))
                           H2))
             _ _ _ _ Hctor Hopen Hread).
  - exact (proj1 (proj2 (seek_open_non_pro_is_compact (-1) None
                           (Scripted.boot (Session1.device [Some Scripted.frame23]))
                           Hm))
             _ _ _ _ Hctor Hopen Hread).
Defined.

(** C10 refuted: a closed handle is not null, and with two non-null
    pointers the call does not return 1, it reads the freed handle; and on an
    open handle of width 3 and height 2, with one int passed for both
    [width] and [height], that int holds 2 afterwards, not the stored
    width. *)
Lemma seek_get_dimensions_flag_counterexample :
  (seek_close (Some Session1.H) (Session1.session Scripted.frame23 [] [])
   = Ok (tt, Session1.closed []) ∧
   seek_get_dimensions (Some Session1.H) (Some var_w) (Some var_h) Session1.vars
     (Session1.closed [])
   = Crash UseAfterFree ∧
   ¬ (∃ ints' s',
        seek_get_dimensions (Some Session1.H) (Some var_w) (Some var_h)
          Session1.vars (Session1.closed [])
        = Ok ((1, ints'), s'))) ∧
  (handles (Session1.session Scripted.frame23 [] []) !! Session1.H
   = Some (Session1.handle23 Scripted.frame23) ∧
   SeekHandle.width (Session1.handle23 Scripted.frame23) = 3 ∧
   ∃ ints',
     seek_get_dimensions (Some Session1.H) (Some var_w) (Some var_w)
       Session1.vars (Session1.session Scripted.frame23 [] [])
     = Ok ((1, ints'), Session1.session Scripted.frame23 [] []) ∧
     ints' !! var_w = Some 2 ∧ ints' !! var_w ≠ Some 3).
Proof.
  split.
  - split; [vm_compute; reflexivity|]. split; [vm_compute; reflexivity|].
    intros (ints' & s' & Hrun). vm_compute in Hrun. discriminate Hrun.
  - split; [reflexivity|]. split; [reflexivity|].
    exists (<[var_w := 2]> Session1.vars).
    split; [vm_compute; reflexivity|]. split; [reflexivity|discriminate].
Qed.

(** C10, amended, on the handle of a session: with a null handle, with two
    variables, and with one variable passed twice. *)
Lemma seek_get_dimensions_flag_witness :
  (handles (Session1.session Scripted.frame23 [] []) !! Session1.H
   = Some (Session1.handle23 Scripted.frame23) ∧
   is_Some (Session1.vars !! var_w) ∧ is_Some (Session1.vars !! var_h)) ∧
  seek_get_dimensions None (Some var_w) (Some var_h) Session1.vars
    (Session1.session Scripted.frame23 [] [])
  = Ok ((0, Session1.vars), Session1.session Scripted.frame23 [] []) ∧
  seek_get_dimensions (Some Session1.H) (Some var_w) (Some var_h) Session1.vars
    (Session1.session Scripted.frame23 [] [])
  = Ok ((1, <[var_h := 2]> (<[var_w := 3]> Session1.vars)),
        Session1.session Scripted.frame23 [] []) ∧
  seek_get_dimensions (Some Session1.H) (Some var_w) (Some var_w) Session1.vars
    (Session1.session Scripted.frame23 [] [])
  = Ok ((1, <[var_w := 2]> (<[var_w := 3]> Session1.vars)),
        Session1.session Scripted.frame23 [] []).
Proof.
  assert (Hp : handles (Session1.session Scripted.frame23 [] []) !! Session1.H
               = Some (Session1.handle23 Scripted.frame23)) by reflexivity.
  assert (Hw : is_Some (Session1.vars !! var_w)) by (exists 0; reflexivity).
  assert (Hh : is_Some (Session1.vars !! var_h)) by (exists 0; reflexivity).
  split; [split; [exact Hp|split; [exact Hw|exact Hh]]|]. split; [|split].
  - apply (proj1 (seek_get_dimensions_flag None (Some var_w) (Some var_h) _ _)).
    left. reflexivity.
  - exact (proj1 (proj1 (proj2 (seek_get_dimensions_flag (Some Session1.H)
                                  (Some var_w) (Some var_h) _ _)
                           Session1.H var_w var_h eq_refl eq_refl eq_refl)
                    _ Hp Hw Hh)).
  - exact (proj1 (proj1 (proj2 (seek_get_dimensions_flag (Some Session1.H)
                                  (Some var_w) (Some var_w) _ _)
                           Session1.H var_w var_w eq_refl eq_refl eq_refl)
                    _ Hp Hw Hw)).
Defined.

(** C7 refuted: the second [seek_close] on a handle is not a call that does
    nothing, it reads the freed handle. *)
Lemma seek_close_twice_counterexample :
  seek_open 0 None (Scripted.boot (Session1.device [Some Scripted.frame23]))
  = Ok (Some Session1.H, Session1.session Scripted.frame23 [] []) ∧
  seek_close (Some Session1.H) (Session1.session Scripted.frame23 [] [])
  = Ok (tt, Session1.closed []) ∧
  seek_close (Some Session1.H) (Session1.closed []) = Crash UseAfterFree ∧
  ¬ (∃ s', seek_close (Some Session1.H) (Session1.closed []) = Ok (tt, s')).
Proof.
  split; [vm_compute; reflexivity|]. split; [vm_compute; reflexivity|].
  split; [vm_compute; reflexivity|]. intros [s' Hrun]. vm_compute in Hrun.
  discriminate Hrun.
Qed.

(** C7, amended, on the handle of a session. *)
Lemma seek_close_once_witness :
  handle_open (Session1.session Scripted.frame23 [] []) Session1.H
    (Session1.handle23 Scripted.frame23) Session1.H SeekThermal ∧
  ∃ s',
    seek_close (Some Session1.H) (Session1.session Scripted.frame23 [] [])
    = Ok (tt, s') ∧
    seek_close (Some Session1.H) s' = Crash UseAfterFree.
Proof.
  assert (Hopen : handle_open (Session1.session Scripted.frame23 [] []) Session1.H
                    (Session1.handle23 Scripted.frame23) Session1.H SeekThermal)
    by (repeat split; reflexivity).
  split; [exact Hopen|].
  destruct (proj2 (seek_close_once _) _ _ _ _ Hopen)
    as (s' & Hclose & _ & _ & _ & Hagain).
  exists s'. split; assumption.
Defined.

(** C8 refuted: after [seek_close], [seek_get_dimensions] on the handle does
    not return 0, it reads the freed handle. *)
Lemma seek_get_dimensions_after_close_counterexample :
  seek_close (Some Session1.H) (Session1.session Scripted.frame23 [] [])
  = Ok (tt, Session1.closed []) ∧
  seek_get_dimensions_vars (Some Session1.H) (Some 0) (Some 0) (Session1.closed [])
  = Crash UseAfterFree ∧
  ¬ (∃ width height s',
       seek_get_dimensions_vars (Some Session1.H) (Some 0) (Some 0) (Session1.closed [])
       = Ok ((0, width, height), s')).
Proof.
  split; [vm_compute; reflexivity|]. split; [vm_compute; reflexivity|].
  intros (width & height & s' & Hrun). vm_compute in Hrun. discriminate Hrun.
Qed.

(** C8, amended, on the handle of a session. *)
Lemma seek_get_dimensions_after_close_witness :
  handle_open (Session1.session Scripted.frame23 [] []) Session1.H
    (Session1.handle23 Scripted.frame23) Session1.H SeekThermal ∧
  ∃ s',
    seek_close (Some Session1.H) (Session1.session Scripted.frame23 [] [])
    = Ok (tt, s') ∧
    seek_get_dimensions_vars (Some Session1.H) (Some 0) (Some 0) s' = Crash UseAfterFree.
Proof.
  assert (Hopen : handle_open (Session1.session Scripted.frame23 [] []) Session1.H
                    (Session1.handle23 Scripted.frame23) Session1.H SeekThermal)
    by (repeat split; reflexivity).
  split; [exact Hopen|].
  destruct (seek_get_dimensions_after_close _ _ _ _ _ Hopen)
    as (s' & Hclose & Hdims & _).
  exists s'. split; [exact Hclose|apply Hdims].
Defined.

(** C4 on a call that copies a frame. *)
Lemma seek_read_frame_codes_witness :
  (read_frame_contract
     (Session1.session Scripted.frame23 [Some Scripted.frame23] [])
     (Some Session1.H) (Some Session1.zeros) 6 ∧
   seek_read_frame (Some Session1.H) (Some Session1.zeros) 6
     (Session1.session Scripted.frame23 [Some Scripted.frame23] [])
   = Ok ((6, Some [10; 11; 12; 20; 21; 22]),
         Session1.session Scripted.frame23 [] [EvRead Session1.H true])) ∧
  (∃ r out s',
     seek_read_frame (Some Session1.H) (Some Session1.zeros) 6
       (Session1.session Scripted.frame23 [Some Scripted.frame23] [])
     = Ok ((r, out), s')) ∧
  (0 <= 6 ↔
   ¬ (Some Session1.H = None ∨ Some Session1.zeros = None ∨ 6 <= 0) ∧
   ∃ m w,
     device_read (Session1.session Scripted.frame23 [Some Scripted.frame23] [])
       (Some Session1.H) = Some (Returned true, m, w) ∧
     rows m * cols m <= 6 ∧ 6 = rows m * cols m).
Proof.
  assert (Hcontract : read_frame_contract
                        (Session1.session Scripted.frame23 [Some Scripted.frame23] [])
                        (Some Session1.H) (Some Session1.zeros) 6).
  { split; [|split].
    - intros p [= <-]. exists (Session1.handle23 Scripted.frame23), Session1.H,
        SeekThermal. repeat split; reflexivity.
    - intros buf [= <-]. vm_compute. discriminate.
    - intros a m w [= <- <- _]. exists true. split; [reflexivity|].
      intros _. split; [|discriminate].
      split; [vm_compute; split; discriminate|reflexivity]. }
  assert (Hrun : seek_read_frame (Some Session1.H) (Some Session1.zeros) 6
                   (Session1.session Scripted.frame23 [Some Scripted.frame23] [])
                 = Ok ((6, Some [10; 11; 12; 20; 21; 22]),
                       Session1.session Scripted.frame23 [] [EvRead Session1.H true]))
    by (vm_compute; reflexivity).
  split; [split; [exact Hcontract|exact Hrun]|].
  split.
  - exact (proj1 (seek_read_frame_codes _ _ _ _) Hcontract).
  - exact (proj2 (proj2 (proj2 (proj2
             (proj2 (seek_read_frame_codes _ _ _ _) _ _ _ Hrun))))).
Defined.

(** C2 refuted: the handle has width 3 and height 2, the capacity is 6, the
    device delivers a 1x2 frame, and the call succeeds with the count 2. *)
Lemma seek_read_frame_success_counterexample :
  seek_open 0 None
    (Scripted.boot (Session1.device [Some Scripted.frame23; Some Scripted.frame12]))
  = Ok (Some Session1.H,
        Session1.session Scripted.frame23 [Some Scripted.frame12] []) ∧
  seek_get_dimensions_vars (Some Session1.H) (Some 0) (Some 0)
    (Session1.session Scripted.frame23 [Some Scripted.frame12] [])
  = Ok ((1, Some 3, Some 2),
        Session1.session Scripted.frame23 [Some Scripted.frame12] []) ∧
  seek_read_frame (Some Session1.H) (Some Session1.zeros) 6
    (Session1.session Scripted.frame23 [Some Scripted.frame12] [])
  = Ok ((2, Some [7; 8; 0; 0; 0; 0]),
        Session1.session Scripted.frame12 [] [EvRead Session1.H true]) ∧
  3 * 2 <= 6 ∧ 2 ≠ 3 * 2.
Proof.
  split; [vm_compute; reflexivity|]. split; [vm_compute; reflexivity|].
  split; [vm_compute; reflexivity|]. lia.
Qed.

(** C2, amended, on a call that copies a frame of the handle's geometry. *)
Lemma seek_read_frame_success_witness :
  (handle_open (Session1.session Scripted.frame23 [Some Scripted.frame23] [])
     Session1.H (Session1.handle23 Scripted.frame23) Session1.H SeekThermal ∧
   seek_read_frame (Some Session1.H) (Some Session1.zeros) 6
     (Session1.session Scripted.frame23 [Some Scripted.frame23] [])
   = Ok ((6, Some [10; 11; 12; 20; 21; 22]),
         Session1.session Scripted.frame23 [] [EvRead Session1.H true]) ∧
   0 <= 6) ∧
  ∃ m, 6 = rows m * cols m ∧
       (rows m = 2 → cols m = 3 → 6 = 3 * 2).
Proof.
  assert (Hopen : handle_open
                    (Session1.session Scripted.frame23 [Some Scripted.frame23] [])
                    Session1.H (Session1.handle23 Scripted.frame23) Session1.H
                    SeekThermal)
    by (repeat split; reflexivity).
  assert (Hrun : seek_read_frame (Some Session1.H) (Some Session1.zeros) 6
                   (Session1.session Scripted.frame23 [Some Scripted.frame23] [])
                 = Ok ((6, Some [10; 11; 12; 20; 21; 22]),
                       Session1.session Scripted.frame23 [] [EvRead Session1.H true]))
    by (vm_compute; reflexivity).
  assert (Hn : 0 <= 6) by lia.
  split; [split; [exact Hopen|split; [exact Hrun|exact Hn]]|].
  destruct (seek_read_frame_success _ _ _ _ _ _ _ _ _ _ Hopen Hrun Hn)
    as (m & w & written & _ & Hcount & _ & _ & _ & _ & _ & _ & _ & Hgeom).
  exists m. split; [exact Hcount|exact Hgeom].
Defined.

(** C3 refuted, twice: with a capacity of 4, less than 3 * 2, the call
    returns -2 when the device read fails, and it returns 2, having written
    two samples, when the device delivers a 1x2 frame. *)
Lemma seek_read_frame_too_small_counterexample :
  0 < 4 < 3 * 2 ∧
  seek_read_frame (Some Session1.H) (Some Session1.zeros) 4
    (Session1.session Scripted.frame23 [None] [])
  = Ok ((-2, Some Session1.zeros),
        Session1.session Scripted.frame23 [] [EvRead Session1.H false]) ∧
  seek_read_frame (Some Session1.H) (Some Session1.zeros) 4
    (Session1.session Scripted.frame23 [Some Scripted.frame12] [])
  = Ok ((2, Some [7; 8; 0; 0; 0; 0]),
        Session1.session Scripted.frame12 [] [EvRead Session1.H true]).
Proof.
  split; [lia|]. split; vm_compute; reflexivity.
Qed.

(** C3, amended, on a call whose device read delivers a 2x3 frame. *)
Lemma seek_read_frame_too_small_witness :
  (handle_open (Session1.session Scripted.frame23 [Some Scripted.frame23] [])
     Session1.H (Session1.handle23 Scripted.frame23) Session1.H SeekThermal ∧
   0 < 4 < 3 * 2 ∧ 3 * 2 <= INT_MAX) ∧
  seek_read_frame (Some Session1.H) (Some Session1.zeros) 4
    (Session1.session Scripted.frame23 [Some Scripted.frame23] [])
  = Ok ((-3, Some Session1.zeros),
        Session1.session Scripted.frame23 [] [EvRead Session1.H true]).
Proof.
  assert (Hopen : handle_open
                    (Session1.session Scripted.frame23 [Some Scripted.frame23] [])
                    Session1.H (Session1.handle23 Scripted.frame23) Session1.H
                    SeekThermal)
    by (repeat split; reflexivity).
  assert (Hcap : 0 < 4 < 3 * 2) by lia.
  assert (Hint : 3 * 2 <= INT_MAX) by (unfold INT_MAX; lia).
  split; [split; [exact Hopen|split; [exact Hcap|exact Hint]]|].
  exact (proj2 (seek_read_frame_too_small Session1.H
                  (Session1.handle23 Scripted.frame23) Session1.H SeekThermal
                  Session1.zeros 4
                  (Session1.session Scripted.frame23 [Some Scripted.frame23] [])
                  true Scripted.frame23 (Session1.device [])
                  Hopen Hcap Hint eq_refl)
           eq_refl eq_refl eq_refl).
Defined.

(** C6 refuted: the read on the handle fails, and the next call on the same
    handle reads from the device again and returns a frame. *)
Lemma seek_read_frame_retries_counterexample :
  seek_read_frame (Some Session1.H) (Some Session1.zeros) 6
    (Session1.session Scripted.frame23 [None; Some Scripted.frame23] [])
  = Ok ((-2, Some Session1.zeros),
        Session1.session Scripted.frame23 [Some Scripted.frame23]
          [EvRead Session1.H false]) ∧
  seek_read_frame (Some Session1.H) (Some Session1.zeros) 6
    (Session1.session Scripted.frame23 [Some Scripted.frame23]
       [EvRead Session1.H false])
  = Ok ((6, Some [10; 11; 12; 20; 21; 22]),
        Session1.session Scripted.frame23 []
          [EvRead Session1.H false; EvRead Session1.H true]).
Proof.
  split; vm_compute; reflexivity.
Qed.

(** C6, amended, on a session whose device fails a read, delivers a frame
    to the next call and fails the read of the call after that. *)
Lemma seek_read_frame_retries_witness :
  (handle_open
     (Session1.session Scripted.frame23 [None; Some Scripted.frame23; None] [])
     Session1.H (Session1.handle23 Scripted.frame23) Session1.H SeekThermal ∧
   seek_read_frame (Some Session1.H) (Some Session1.zeros) 6
     (Session1.session Scripted.frame23 [None; Some Scripted.frame23; None] [])
   = Ok ((-2, Some Session1.zeros),
         Session1.session Scripted.frame23 [Some Scripted.frame23; None]
           [EvRead Session1.H false]) ∧
   Forall (λ call, call ≠ CallClose (Some Session1.H))
     [CallReadFrame (Some Session1.H) (Some Session1.zeros) 6] ∧
   run_calls [CallReadFrame (Some Session1.H) (Some Session1.zeros) 6]
     (Session1.session Scripted.frame23 [Some Scripted.frame23; None]
        [EvRead Session1.H false])
   = Ok (tt, Session1.session Scripted.frame23 [None]
               [EvRead Session1.H false; EvRead Session1.H true]) ∧
   0 < 6 ∧
   seek_read_frame (Some Session1.H) (Some Session1.zeros) 6
     (Session1.session Scripted.frame23 [None]
        [EvRead Session1.H false; EvRead Session1.H true])
   = Ok ((-2, Some Session1.zeros),
         Session1.session Scripted.frame23 []
           [EvRead Session1.H false; EvRead Session1.H true;
            EvRead Session1.H false])) ∧
  ∃ ok,
    trace (Session1.session Scripted.frame23 []
             [EvRead Session1.H false; EvRead Session1.H true;
              EvRead Session1.H false])
    = trace (Session1.session Scripted.frame23 [None]
               [EvRead Session1.H false; EvRead Session1.H true])
      ++ [EvRead Session1.H ok] ∧
    (-2 = -2 ↔ ok = false).
Proof.
  assert (Hopen : handle_open
                    (Session1.session Scripted.frame23
                       [None; Some Scripted.frame23; None] [])
                    Session1.H (Session1.handle23 Scripted.frame23) Session1.H
                    SeekThermal)
    by (repeat split; reflexivity).
  assert (Hrun : seek_read_frame (Some Session1.H) (Some Session1.zeros) 6
                   (Session1.session Scripted.frame23
                      [None; Some Scripted.frame23; None] [])
                 = Ok ((-2, Some Session1.zeros),
                       Session1.session Scripted.frame23
                         [Some Scripted.frame23; None]
                         [EvRead Session1.H false]))
    by (vm_compute; reflexivity).
  assert (Hcalls : Forall (λ call, call ≠ CallClose (Some Session1.H))
                     [CallReadFrame (Some Session1.H) (Some Session1.zeros) 6])
    by (repeat constructor; discriminate).
  assert (Hbetween : run_calls
                       [CallReadFrame (Some Session1.H) (Some Session1.zeros) 6]
                       (Session1.session Scripted.frame23
                          [Some Scripted.frame23; None]
                          [EvRead Session1.H false])
                     = Ok (tt, Session1.session Scripted.frame23 [None]
                                 [EvRead Session1.H false; EvRead Session1.H true]))
    by (vm_compute; reflexivity).
  assert (Hcap : 0 < 6) by lia.
  assert (Hlater : seek_read_frame (Some Session1.H) (Some Session1.zeros) 6
                     (Session1.session Scripted.frame23 [None]
                        [EvRead Session1.H false; EvRead Session1.H true])
                   = Ok ((-2, Some Session1.zeros),
                         Session1.session Scripted.frame23 []
                           [EvRead Session1.H false; EvRead Session1.H true;
                            EvRead Session1.H false]))
    by (vm_compute; reflexivity).
  split; [repeat (split; [assumption|]); assumption|].
  destruct (seek_read_frame_retries _ _ _ _ _ _ _ _ _ Hopen Hrun)
    as (_ & _ & Hafter).
  destruct (Hafter _ _ Hcalls Hbetween) as (_ & Hreads).
  exact (Hreads _ _ _ _ _ Hcap Hlater).
Defined.

(** C5 on a session that reads twice, the second frame being 1x2. *)
Lemma dimensions_stable_witness :
  seek_open 0 None
    (Scripted.boot (Session1.device [Some Scripted.frame23; Some Scripted.frame12]))
  = Ok (Some Session1.H,
        Session1.session Scripted.frame23 [Some Scripted.frame12] []) ∧
  ∃ m,
    initialized
      (Scripted.boot (Session1.device [Some Scripted.frame23; Some Scripted.frame12]))
      (Session1.session Scripted.frame23 [Some Scripted.frame12] [])
      0 EmptyString Session1.H m ∧
    seek_get_dimensions_vars (Some Session1.H) (Some 0) (Some 0)
      (Session1.session Scripted.frame12 [] [EvRead Session1.H true])
    = Ok ((1, Some (cols m), Some (rows m)),
          Session1.session Scripted.frame12 [] [EvRead Session1.H true]).
Proof.
  assert (Hopen : seek_open 0 None
                    (Scripted.boot
                       (Session1.device [Some Scripted.frame23; Some Scripted.frame12]))
                  = Ok (Some Session1.H,
                        Session1.session Scripted.frame23 [Some Scripted.frame12] []))
    by (vm_compute; reflexivity).
  split; [exact Hopen|].
  destruct (dimensions_stable _ _ _ _ _ Hopen) as (m & Hinit & Hstable).
  exists m. split; [exact Hinit|].
  apply (Hstable [CallReadFrame (Some Session1.H) (Some Session1.zeros) 6]).
  - repeat constructor. discriminate.
  - vm_compute. reflexivity.
Defined.

(** ** The order of the driver calls *)


Section Protocol.
Context {W : Type} `{!LibSeek W}.








End Protocol.

(** ** Sessions as a whole *)

Section Whole.
Context {W : Type} `{!LibSeek W}.

Lemma seek_open_returns camera_type ffc_path (s : State W) :
  open_contract s camera_type ffc_path →
  ∃ r s', seek_open camera_type ffc_path s = Ok (r, s').
Proof.
  unfold open_contract. cbn zeta. intros Hdrv.
  rewrite seek_open_eq. cbn zeta.
  destruct (cam_construct _ _ _ (world s)) as [[|] w1]; cbn [negb]; [|eauto].
  destruct (Hdrv w1 eq_refl) as (ok2 & w2 & -> & Hread).
  destruct ok2; cbn [negb]; [|eauto].
  destruct (Hread eq_refl) as (ok3 & m & w3 & ->).
  destruct ok3; cbn [negb]; eauto.
Qed.

Lemma seek_get_dimensions_vars_returns handle width height (s : State W) :
  (∀ p, handle = Some p → is_Some (handles s !! p)) →
  ∃ r, seek_get_dimensions_vars handle width height s = Ok (r, s).
Proof.
  intros Hlive. destruct handle as [p|]; [|eexists; reflexivity].
  destruct width as [w0|]; [|eexists; reflexivity].
  destruct height as [h0|]; [|eexists; reflexivity].
  destruct (Hlive p eq_refl) as [h Hp].
  rewrite (seek_get_dimensions_vars_eq _ _ _ _ _ Hp). eauto.
Qed.

Lemma seek_read_frame_dangling p buf capacity (s : State W) :
  handles s !! p = None → 0 < capacity →
  seek_read_frame (Some p) (Some buf) capacity s = Crash UseAfterFree.
Proof.
  intros Hp Hcap. unfold seek_read_frame, bind, load.
  replace (capacity <=? 0) with false by (symmetry; apply Z.leb_gt; lia).
  rewrite Hp. reflexivity.
Qed.

(** In a state that satisfies the invariant a call within its contract
    returns. *)
Lemma run_call_returns call (s : State W) :
  wf s → call_ok s call → ∃ s', run_call call s = Ok (tt, s').
Proof.
  intros Hwf Hok. destruct call; cbn [run_call call_ok] in *.
  - destruct (seek_open_returns camera_type ffc_path s Hok) as (r & s' & Hrun).
    exists s'. rewrite (bind_ok _ _ _ _ _ Hrun). reflexivity.
  - destruct handle as [p|]; [|eexists; reflexivity].
    destruct (Hok p eq_refl) as [h Hp].
    destruct (wf_handle_open _ _ _ Hwf Hp) as (c & k & Hopen).
    rewrite (seek_close_eq _ _ _ _ _ Hopen). eauto.
  - destruct (seek_get_dimensions_vars_returns handle width height s Hok) as (r & Hrun).
    exists s. rewrite (bind_ok _ _ _ _ _ Hrun). reflexivity.
  - destruct (seek_read_frame_defined _ _ _ _ Hok) as (r & out & s' & Hrun).
    exists s'. rewrite (bind_ok _ _ _ _ _ Hrun). reflexivity.
Qed.
End Whole.

(** X1. Whatever the driver answers, every state that a sequence of
    exported calls reaches from an empty free store keeps the handles and
    the camera objects paired: each live handle owns a live camera object of
    its class, no two handles share one, and no camera object is left
    without a handle. *)
Theorem session_keeps_invariant {W : Type} `{!LibSeek W}
    (w : W) (calls : list Call) (s' : State W) :
  run_calls calls (mkState ∅ ∅ w []) = Ok (tt, s') → wf s'.
Proof.
  intros Hrun. exact (wf_run_calls _ _ _ (wf_empty w []) Hrun).
Qed.


(** X3. [seek_close] on the handle that [seek_open] has just returned
    puts the free store back as it was before the [seek_open]: the handle and
    the camera object are gone, and the driver saw the constructor, [open],
    one [read], [close] and the destructor, in that order. *)
Theorem open_close_round_trip {W : Type} `{!LibSeek W}
    (camera_type : Z) (ffc_path : option string) (s : State W)
    (p : positive) (s1 : State W) :
  seek_open camera_type ffc_path s = Ok (Some p, s1) →
  ∃ s2 c,
    seek_close (Some p) s1 = Ok (tt, s2) ∧
    handles s2 = handles s ∧ cams s2 = cams s ∧
    trace s2 = trace s ++
      [EvConstruct (camera_class camera_type) c (default EmptyString ffc_path) true;
       EvOpen c true; EvRead c true; EvClose c; EvDestroy c].
Proof.
  rewrite seek_open_eq. cbn zeta.
  destruct (cam_construct _ _ _ (world s)) as [[|] w1]; cbn [negb]; [|discriminate].
  destruct (cam_open _ _ w1) as [[[|]|] w2]; cbn [negb];
    [|discriminate|discriminate].
  destruct (cam_read _ _ _ w2) as [[[[|]|] m] w3]; cbn [negb];
    [|discriminate|discriminate].
  intros [= <- <-]. eexists _, _.
  rewrite (seek_close_eq _ _ _ _ _ (handle_open_opened _ _ _ _ _ _ _ _)).
  split; [reflexivity|]. cbn [handles cams trace].
  split; [apply delete_insert_id, fresh_handle|].
  split; [apply delete_insert_id, fresh_cam|].
  rewrite <- app_assoc. reflexivity.
Qed.

(** X4. In a state that satisfies the invariant, a call that returns
    leaves every open handle other than the one it is made on open and
    unchanged: [seek_open] of a further camera, [seek_close] and
    [seek_read_frame] on another handle do not disturb a session. *)
Theorem other_handles_untouched {W : Type} `{!LibSeek W}
    (call : Call) (s s' : State W) (q : positive) (hq : SeekHandle.t)
    (cq : positive) (kq : CamClass) :
  wf s → handle_open s q hq cq kq → call_handle call ≠ Some q →
  run_call call s = Ok (tt, s') → handle_open s' q hq cq kq.
Proof.
  intros Hwf (Hq & Howns & Hcq) Hne Hrun.
  destruct call; cbn [run_call call_handle] in Hrun, Hne.
  - apply bind_inv in Hrun as (r & s1 & Hrun & [= <-]).
    rewrite seek_open_eq in Hrun. cbn zeta in Hrun.
    destruct (cam_construct _ _ _ (world s)) as [[|] w1]; cbn [negb] in Hrun.
    2: { injection Hrun as _ <-. repeat split; assumption || apply Howns. }
    destruct (cam_open _ _ w1) as [[[|]|] w2]; cbn [negb] in Hrun;
    [| |discriminate].
    2: { injection Hrun as _ <-. repeat split; assumption || apply Howns. }
    destruct (cam_read _ _ _ w2) as [[[[|]|] m] w3]; cbn [negb] in Hrun;
    [| |discriminate].
    2: { injection Hrun as _ <-. repeat split; assumption || apply Howns. }
    injection Hrun as _ <-. split; [|split; [exact Howns|]]; cbn [handles cams].
    + rewrite lookup_insert_ne; [exact Hq|].
      intros Heq. rewrite <- Heq, fresh_handle in Hq. discriminate.
    + rewrite lookup_insert_ne; [exact Hcq|].
      intros Heq. rewrite <- Heq, fresh_cam in Hcq. discriminate.
  - destruct handle as [p|].
    2: { injection Hrun as <-. split; [exact Hq|split; [exact Howns|exact Hcq]]. }
    destruct (handles s !! p) as [h|] eqn:Hp.
    2: { rewrite (seek_close_dangling _ _ Hp) in Hrun. discriminate. }
    destruct (wf_handle_open _ _ _ Hwf Hp) as (c & k & Hopen).
    rewrite (seek_close_eq _ _ _ _ _ Hopen) in Hrun. injection Hrun as <-.
    assert (Hpq : p ≠ q) by congruence.
    split; [|split; [exact Howns|]]; cbn [handles cams].
    + rewrite lookup_delete_ne; [exact Hq|exact Hpq].
    + rewrite lookup_delete_ne; [exact Hcq|].
      intros <-. apply Hpq. destruct Hwf as (_ & Huniq & _).
      destruct Hopen as (_ & (Hcam & _) & _). destruct Howns as (Hcamq & _).
      exact (Huniq p q h hq c Hp Hq Hcam Hcamq).
  - apply bind_inv in Hrun as (r & s1 & Hrun & [= <-]).
    rewrite (seek_get_dimensions_vars_state _ _ _ _ _ _ Hrun).
    split; [exact Hq|split; [exact Howns|exact Hcq]].
  - apply bind_inv in Hrun as ([r out] & s1 & Hrun & [= <-]).
    destruct handle as [p|], out_buffer as [buf|];
      try (rewrite seek_read_frame_invalid in Hrun by auto;
           injection Hrun as _ _ <-;
           split; [exact Hq|split; [exact Howns|exact Hcq]]).
    destruct (Z.leb_spec capacity 0) as [Hle|Hcap].
    { rewrite seek_read_frame_invalid in Hrun by auto.
      injection Hrun as _ _ <-. split; [exact Hq|split; [exact Howns|exact Hcq]]. }
    destruct (seek_read_frame_inv _ _ _ _ _ _ _ Hcap Hrun)
      as (hp & c & k & ok & m & w & Hp & _ & _ & _ & -> & _).
    split; [|split; [exact Howns|exact Hcq]]. unfold after_read. cbn [handles].
    rewrite lookup_insert_ne; [exact Hq|congruence].
Qed.

(** X5. In a state that satisfies the invariant, a call within its
    contract returns, without undefined behaviour and without an exception,
    and the state it leaves satisfies the invariant again.  The contract: a
    handle argument is null or live; for [seek_open] the driver's [open] and
    first [read] return; for [seek_read_frame] the buffer has room for the
    capacity, and the driver's [read] returns and, when it succeeds, delivers
    a well-formed matrix that holds samples. *)
Theorem call_in_contract_returns {W : Type} `{!LibSeek W}
    (call : Call) (s : State W) :
  wf s → call_ok s call →
  ∃ s', run_call call s = Ok (tt, s') ∧ wf s'.
Proof.
  intros Hwf Hok. destruct (run_call_returns _ _ Hwf Hok) as (s' & Hrun).
  exists s'. split; [exact Hrun|exact (wf_run_call _ _ _ Hwf Hrun)].
Qed.

(** X6. A call of [seek_read_frame] that returns never allocates or
    frees, and on every negative result leaves the buffer as it was.  With
    the result -1 it has not changed the state nor called the driver.  With
    any other result, -3 included, it has called [read] on the device exactly
    once: a frame that did not fit the capacity has been taken from the
    device all the same. *)
Theorem seek_read_frame_reads_once {W : Type} `{!LibSeek W}
    (handle : option positive) (out_buffer : option (list Z)) (capacity : Z)
    (s : State W) (r : Z) (out : option (list Z)) (s' : State W) :
  seek_read_frame handle out_buffer capacity s = Ok ((r, out), s') →
  cams s' = cams s ∧ dom (handles s') = dom (handles s) ∧
  (r < 0 → out = out_buffer) ∧
  (r = -1 → s' = s) ∧
  (r ≠ -1 →
   ∃ c ok, trace s' = trace s ++ [EvRead c ok] ∧
           (ok = false ↔ r = -2) ∧ (ok = true ↔ r = -3 ∨ 0 <= r)).
Proof.
  intros Hrun.
  assert (Hdec : (handle = None ∨ out_buffer = None ∨ capacity <= 0) ∨
                 ∃ p buf, handle = Some p ∧ out_buffer = Some buf ∧ 0 < capacity).
  { destruct handle as [p|]; [|auto]. destruct out_buffer as [buf|]; [|auto].
    destruct (Z.leb_spec capacity 0); [auto|]. right. eauto. }
  destruct Hdec as [Hbad|(p & buf & -> & -> & Hcap)].
  - rewrite (seek_read_frame_invalid _ _ _ _ Hbad) in Hrun.
    injection Hrun as <- <- <-.
    split; [reflexivity|]. split; [reflexivity|]. split; [reflexivity|].
    split; [reflexivity|]. intros Hne. contradiction.
  - destruct (seek_read_frame_inv _ _ _ _ _ _ _ Hcap Hrun)
      as (h & c & k & ok & m & w & Hp & _ & _ & _ & -> & Hcase).
    unfold after_read. cbn [handles cams trace].
    split; [reflexivity|].
    split; [apply dom_insert_lookup_L; eauto|].
    destruct Hcase as [-> | -> Hsmall | -> Hfit Hsrc Hdst].
    + split; [reflexivity|]. split; [discriminate|]. intros _.
      exists c, false. split; [reflexivity|].
      split; [tauto|]. split; [discriminate|]. intros [?|?]; [discriminate|lia].
    + split; [reflexivity|]. split; [discriminate|]. intros _.
      exists c, true. split; [reflexivity|].
      split; [split; discriminate|]. split; auto.
    + split; [intros ?; exfalso; lia|]. split; [intros ?; exfalso; lia|].
      intros _. exists c, true. split; [reflexivity|].
      split; [split; [discriminate|intros ?; exfalso; lia]|].
      split; [intros _; right; lia|reflexivity].
Qed.

(** X7. On an open handle, with a buffer and a positive capacity, and the
    device's [read] returning the flag [ok] and the matrix [m], the call
    returns without undefined behaviour exactly when the read failed, or rows
    times columns of [m] is an [int] and either exceeds the capacity or is a
    count, not negative, that neither the matrix nor the caller's real
    buffer falls short of, of a matrix that holds samples: the data pointer
    of an empty matrix is null, and [memcpy] must not be given it even for a
    count of 0.  The capacity is taken on trust: it is never compared with
    the buffer. *)
Theorem seek_read_frame_safe_iff {W : Type} `{!LibSeek W}
    (p : positive) (h : SeekHandle.t) (c : positive) (k : CamClass)
    (buf : list Z) (capacity : Z) (s : State W) (ok : bool) (m : Mat) (w : W) :
  handle_open s p h c k →
  0 < capacity →
  cam_read k c (SeekHandle.frame h) (world s) = (Returned ok, m, w) →
  ((∃ r, seek_read_frame (Some p) (Some buf) capacity s = Ok r) ↔
   ok = false ∨
   (INT_MIN <= rows m * cols m <= INT_MAX ∧
    (capacity < rows m * cols m ∨
     (data m ≠ [] ∧
      0 <= rows m * cols m ∧
      rows m * cols m <= Z.of_nat (length (data m)) ∧
      rows m * cols m <= Z.of_nat (length buf))))).
Proof.
  intros (Hp & (Hcam & _) & Hc) Hcap Hread.
  rewrite (seek_read_frame_eq _ _ _ _ _ _ _ Hp Hcam Hc Hcap), Hread. cbn zeta.
  destruct ok; cbn [negb]; [|split; eauto].
  unfold in_int.
  destruct (Z.leb_spec INT_MIN (rows m * cols m)) as [Hlo|Hlo]; cbn [andb negb].
  2: { split; [intros [r [=]]|intros [[=]|[? _]]; exfalso; lia]. }
  destruct (Z.leb_spec (rows m * cols m) INT_MAX) as [Hhi|Hhi]; cbn [negb].
  2: { split; [intros [r [=]]|intros [[=]|[? _]]; exfalso; lia]. }
  destruct (Z.ltb_spec capacity (rows m * cols m)) as [Hsmall|Hfit].
  { split; [intros _; right; split; [lia|left; exact Hsmall]|eauto]. }
  destruct (data m) as [|x rest] eqn:Hdata.
  { split; [intros [r [=]]|].
    intros [[=]|[_ [?|(Hnil & _)]]]; [exfalso; lia|contradiction]. }
  destruct (Z.leb_spec 0 (rows m * cols m)) as [H0|H0]; cbn [andb].
  2: { split; [intros [r [=]]|intros [[=]|[_ [?|(_ & ? & _)]]]; exfalso; lia]. }
  destruct (Z.leb_spec (rows m * cols m) (Z.of_nat (length (x :: rest))))
    as [Hs|Hs]; cbn [andb].
  2: { split; [intros [r [=]]|intros [[=]|[_ [?|(_ & _ & ? & _)]]]; exfalso; lia]. }
  destruct (Z.leb_spec (rows m * cols m) (Z.of_nat (length buf))) as [Hd|Hd].
  2: { split; [intros [r [=]]|intros [[=]|[_ [?|(_ & _ & _ & ?)]]]; exfalso; lia]. }
  split; [|eauto]. intros _. right. split; [lia|]. right.
  split; [discriminate|]. split; [exact H0|]. split; [exact Hs|exact Hd].
Qed.

(** X8. After [seek_close] on an open handle, [seek_read_frame] on that
    handle with a buffer and a positive capacity reads freed storage.  Only
    the tests on the arguments come before the first use of the handle: with
    a null buffer or a capacity that is not positive the result is still -1
    and nothing is touched. *)
Theorem seek_read_frame_after_close {W : Type} `{!LibSeek W}
    (s : State W) (p : positive) (h : SeekHandle.t) (c : positive) (k : CamClass) :
  handle_open s p h c k →
  ∃ s',
    seek_close (Some p) s = Ok (tt, s') ∧
    (∀ buf capacity,
       0 < capacity →
       seek_read_frame (Some p) (Some buf) capacity s' = Crash UseAfterFree) ∧
    (∀ out_buffer capacity,
       out_buffer = None ∨ capacity <= 0 →
       seek_read_frame (Some p) out_buffer capacity s' = Ok ((-1, out_buffer), s')).
Proof.
  intros Hopen. eexists. split; [apply (seek_close_eq _ _ _ _ _ Hopen)|]. split.
  - intros buf capacity Hcap. apply seek_read_frame_dangling; [|exact Hcap].
    cbn [handles]. apply lookup_delete_eq.
  - intros out_buffer capacity Hbad. apply seek_read_frame_invalid. auto.
Qed.

(** X9. A [seek_open] that returns null stopped at the first driver call
    that failed and made no later one: after a constructor that threw,
    nothing else; after a failed [open], only the destructor, without
    [close]; after a failed first read, [close] and then the destructor. *)
Theorem seek_open_stops_at_first_failure {W : Type} `{!LibSeek W}
    (camera_type : Z) (ffc_path : option string) (s s' : State W) :
  seek_open camera_type ffc_path s = Ok (None, s') →
  let k := camera_class camera_type in
  let ffc := default EmptyString ffc_path in
  ∃ c evs,
    trace s' = trace s ++ evs ∧
    (evs = [EvConstruct k c ffc false] ∨
     evs = [EvConstruct k c ffc true; EvOpen c false; EvDestroy c] ∨
     evs = [EvConstruct k c ffc true; EvOpen c true; EvRead c false;
            EvClose c; EvDestroy c]).
Proof.
  rewrite seek_open_eq. cbn zeta.
  destruct (cam_construct _ _ _ (world s)) as [[|] w1]; cbn [negb].
  2: { intros [= <-]. eexists _, _. split; [reflexivity|]. left. reflexivity. }
  destruct (cam_open _ _ w1) as [[[|]|] w2]; cbn [negb];
    [| |discriminate].
  2: { intros [= <-]. eexists _, _. split; [reflexivity|].
       right. left. reflexivity. }
  destruct (cam_read _ _ _ w2) as [[[[|]|] m] w3]; cbn [negb];
    [discriminate| |discriminate].
  intros [= <-]. eexists _, _. split; [reflexivity|]. right. right. reflexivity.
Qed.

(** ** Concrete runs of whole sessions *)

(** Two cameras opened one after the other, and a frame read from the
    first: both handles are live at the end, each on its own camera. *)
Lemma session_keeps_invariant_witness :
  run_calls [CallOpen 0 None; CallOpen 1 None;
             CallReadFrame (Some Session1.H) (Some Session1.zeros) 6]
    (mkState ∅ ∅
       (Session1.device [Some Scripted.frame23; Some Scripted.frame12;
                         Some Scripted.frame23]) [])
  = Ok (tt, Session2.both [] [EvRead Session1.H true]) ∧
  wf (Session2.both [] [EvRead Session1.H true]) ∧
  handle_open (Session2.both [] [EvRead Session1.H true]) Session1.H
    (Session1.handle23 Scripted.frame23) Session1.H SeekThermal ∧
  handle_open (Session2.both [] [EvRead Session1.H true]) Session2.G
    Session2.handle12 Session2.G SeekThermalPro.
Proof.
  assert (Hrun : run_calls
                   [CallOpen 0 None; CallOpen 1 None;
                    CallReadFrame (Some Session1.H) (Some Session1.zeros) 6]
                   (mkState ∅ ∅
                      (Session1.device [Some Scripted.frame23; Some Scripted.frame12;
                                        Some Scripted.frame23]) [])
                 = Ok (tt, Session2.both [] [EvRead Session1.H true]))
    by (vm_compute; reflexivity).
  split; [exact Hrun|]. split; [exact (session_keeps_invariant _ _ _ Hrun)|].
  split; repeat split; reflexivity.
Defined.


(** Opening a compact camera and closing it at once. *)
Lemma open_close_round_trip_witness :
  seek_open 0 None (Scripted.boot (Session1.device [Some Scripted.frame23]))
  = Ok (Some Session1.H, Session1.session Scripted.frame23 [] []) ∧
  ∃ s2 c,
    seek_close (Some Session1.H) (Session1.session Scripted.frame23 [] [])
    = Ok (tt, s2) ∧
    handles s2 = ∅ ∧ cams s2 = ∅ ∧
    trace s2 =
      [EvConstruct SeekThermal c EmptyString true; EvOpen c true; EvRead c true;
       EvClose c; EvDestroy c].
Proof.
  assert (Hopen : seek_open 0 None
                    (Scripted.boot (Session1.device [Some Scripted.frame23]))
                  = Ok (Some Session1.H, Session1.session Scripted.frame23 [] []))
    by (vm_compute; reflexivity).
  split; [exact Hopen|]. exact (open_close_round_trip _ _ _ _ _ Hopen).
Defined.

Lemma wf_both script evs : wf (Session2.both script evs).
Proof.
  split; [|split]; unfold Session2.both; cbn [handles cams].
  - intros p h Hp. apply lookup_insert_Some in Hp as [[<- <-]|[Hne Hp]].
    + exists Session2.G, SeekThermalPro. repeat split.
    + apply lookup_singleton_Some in Hp as [<- <-].
      exists Session1.H, SeekThermal. repeat split.
  - intros p q hp hq c Hp Hq Hcp Hcq.
    apply lookup_insert_Some in Hp as [[<- <-]|[Hnp Hp]];
      apply lookup_insert_Some in Hq as [[<- <-]|[Hnq Hq]];
      try apply lookup_singleton_Some in Hp as [<- <-];
      try apply lookup_singleton_Some in Hq as [<- <-];
      cbn in Hcp, Hcq; congruence.
  - intros c k Hc. apply lookup_insert_Some in Hc as [[<- <-]|[Hne Hc]].
    + exists Session2.G, Session2.handle12. split; [apply lookup_insert_eq|reflexivity].
    + apply lookup_singleton_Some in Hc as [<- <-].
      exists Session1.H, (Session1.handle23 Scripted.frame23).
      split; [reflexivity|reflexivity].
Qed.

(** Closing the first of two sessions leaves the second open. *)
Lemma other_handles_untouched_witness :
  (wf (Session2.both [] []) ∧
   handle_open (Session2.both [] []) Session2.G Session2.handle12 Session2.G
     SeekThermalPro ∧
   call_handle (CallClose (Some Session1.H)) ≠ Some Session2.G) ∧
  ∃ s',
    run_call (CallClose (Some Session1.H)) (Session2.both [] []) = Ok (tt, s') ∧
    handle_open s' Session2.G Session2.handle12 Session2.G SeekThermalPro.
Proof.
  assert (Hwf : wf (Session2.both [] [])) by apply wf_both.
  assert (Hopen : handle_open (Session2.both [] []) Session2.G Session2.handle12
                    Session2.G SeekThermalPro)
    by (repeat split; reflexivity).
  assert (Hne : call_handle (CallClose (Some Session1.H)) ≠ Some Session2.G)
    by discriminate.
  split; [split; [exact Hwf|split; [exact Hopen|exact Hne]]|].
  eexists. split; [vm_compute; reflexivity|].
  refine (other_handles_untouched _ _ _ _ _ _ _ Hwf Hopen Hne _).
  vm_compute. reflexivity.
Defined.

(** A read on the second of two sessions, and a [seek_open] beside them,
    both within their contracts. *)
Lemma call_in_contract_returns_witness :
  (wf (Session2.both [Some Scripted.frame12] []) ∧
   call_ok (Session2.both [Some Scripted.frame12] [])
     (CallReadFrame (Some Session2.G) (Some Session1.zeros) 6) ∧
   call_ok (Session2.both [Some Scripted.frame12] []) (CallOpen 0 None)) ∧
  (∃ s',
     run_call (CallReadFrame (Some Session2.G) (Some Session1.zeros) 6)
       (Session2.both [Some Scripted.frame12] []) = Ok (tt, s') ∧
     wf s') ∧
  (∃ s',
     run_call (CallOpen 0 None) (Session2.both [Some Scripted.frame12] [])
     = Ok (tt, s') ∧
     wf s').
Proof.
  assert (Hwf : wf (Session2.both [Some Scripted.frame12] [])) by apply wf_both.
  assert (Hok : call_ok (Session2.both [Some Scripted.frame12] [])
                  (CallReadFrame (Some Session2.G) (Some Session1.zeros) 6)).
  { split; [|split].
    - intros p [= <-]. exists Session2.handle12, Session2.G, SeekThermalPro.
      repeat split; reflexivity.
    - intros buf [= <-]. vm_compute. discriminate.
    - intros a m w [= <- <- _]. exists true. split; [reflexivity|].
      intros _. split; [|discriminate].
      split; [vm_compute; split; discriminate|reflexivity]. }
  assert (Hok' : call_ok (Session2.both [Some Scripted.frame12] [])
                   (CallOpen 0 None)).
  { intros w1 [= <-]. exists true, (Session1.device [Some Scripted.frame12]).
    split; [reflexivity|]. intros _.
    exists true, Scripted.frame12, (Session1.device []). reflexivity. }
  split; [split; [exact Hwf|split; [exact Hok|exact Hok']]|]. split.
  - exact (call_in_contract_returns _ _ Hwf Hok).
  - exact (call_in_contract_returns _ _ Hwf Hok').
Defined.

(** A call whose frame does not fit: the result is -3 and the device was
    read. *)
Lemma seek_read_frame_reads_once_witness :
  seek_read_frame (Some Session1.H) (Some Session1.zeros) 4
    (Session1.session Scripted.frame23 [Some Scripted.frame23] [])
  = Ok ((-3, Some Session1.zeros),
        Session1.session Scripted.frame23 [] [EvRead Session1.H true]) ∧
  ∃ c ok,
    trace (Session1.session Scripted.frame23 [] [EvRead Session1.H true])
    = trace (Session1.session Scripted.frame23 [Some Scripted.frame23] [])
      ++ [EvRead c ok] ∧
    (ok = true ↔ -3 = -3 ∨ 0 <= -3).
Proof.
  assert (Hrun : seek_read_frame (Some Session1.H) (Some Session1.zeros) 4
                   (Session1.session Scripted.frame23 [Some Scripted.frame23] [])
                 = Ok ((-3, Some Session1.zeros),
                       Session1.session Scripted.frame23 [] [EvRead Session1.H true]))
    by (vm_compute; reflexivity).
  split; [exact Hrun|].
  destruct (seek_read_frame_reads_once _ _ _ _ _ _ _ Hrun)
    as (_ & _ & _ & _ & Hread).
  destruct (Hread ltac:(discriminate)) as (c & ok & Htrace & _ & Hok).
  exists c, ok. split; [exact Htrace|exact Hok].
Defined.

(** A frame of six samples against a buffer of six and against one of two
    that is passed off as six. *)
Lemma seek_read_frame_safe_iff_witness :
  (handle_open (Session1.session Scripted.frame23 [Some Scripted.frame23] [])
     Session1.H (Session1.handle23 Scripted.frame23) Session1.H SeekThermal ∧
   0 < 6) ∧
  (∃ r, seek_read_frame (Some Session1.H) (Some Session1.zeros) 6
          (Session1.session Scripted.frame23 [Some Scripted.frame23] []) = Ok r) ∧
  ¬ (∃ r, seek_read_frame (Some Session1.H) (Some [0; 0]) 6
            (Session1.session Scripted.frame23 [Some Scripted.frame23] []) = Ok r).
Proof.
  assert (Hopen : handle_open
                    (Session1.session Scripted.frame23 [Some Scripted.frame23] [])
                    Session1.H (Session1.handle23 Scripted.frame23) Session1.H
                    SeekThermal)
    by (repeat split; reflexivity).
  assert (Hcap : 0 < 6) by lia.
  assert (Hread : cam_read SeekThermal Session1.H
                    (SeekHandle.frame (Session1.handle23 Scripted.frame23))
                    (world (Session1.session Scripted.frame23
                              [Some Scripted.frame23] []))
                  = (Returned true, Scripted.frame23, Session1.device []))
    by reflexivity.
  split; [split; [exact Hopen|exact Hcap]|]. split.
  - apply (proj2 (seek_read_frame_safe_iff Session1.H _ Session1.H SeekThermal
                    Session1.zeros 6 _ true Scripted.frame23 (Session1.device [])
                    Hopen Hcap Hread)).
    right. vm_compute. split; [split; discriminate|].
    right. repeat split; discriminate.
  - intros Hsafe.
    apply (proj1 (seek_read_frame_safe_iff Session1.H _ Session1.H SeekThermal
                    [0; 0] 6 _ true Scripted.frame23 (Session1.device [])
                    Hopen Hcap Hread)) in Hsafe.
    destruct Hsafe as [Hfalse|[_ [Hsmall|(_ & _ & _ & Hdst)]]].
    + discriminate Hfalse.
    + vm_compute in Hsmall. discriminate Hsmall.
    + vm_compute in Hdst. apply Hdst. reflexivity.
Defined.

(** Reading on a handle that was closed. *)
Lemma seek_read_frame_after_close_witness :
  handle_open (Session1.session Scripted.frame23 [] []) Session1.H
    (Session1.handle23 Scripted.frame23) Session1.H SeekThermal ∧
  ∃ s',
    seek_close (Some Session1.H) (Session1.session Scripted.frame23 [] [])
    = Ok (tt, s') ∧
    seek_read_frame (Some Session1.H) (Some Session1.zeros) 6 s'
    = Crash UseAfterFree ∧
    seek_read_frame (Some Session1.H) None 6 s' = Ok ((-1, None), s').
Proof.
  assert (Hopen : handle_open (Session1.session Scripted.frame23 [] []) Session1.H
                    (Session1.handle23 Scripted.frame23) Session1.H SeekThermal)
    by (repeat split; reflexivity).
  split; [exact Hopen|].
  destruct (seek_read_frame_after_close _ _ _ _ _ Hopen)
    as (s' & Hclose & Hread & Hnull).
  exists s'. split; [exact Hclose|]. split.
  - apply Hread. lia.
  - apply Hnull. left. reflexivity.
Defined.

(** A device that cannot be opened: the destructor runs, [close] does not. *)
Lemma seek_open_stops_at_first_failure_witness :
  seek_open 1 None (Scripted.boot (Scripted.mk true false []))
  = Ok (None,
        mkState ∅ ∅ (Scripted.mk true false [])
          [EvConstruct SeekThermalPro Session1.H EmptyString true;
           EvOpen Session1.H false; EvDestroy Session1.H]) ∧
  ∃ c evs,
    [EvConstruct SeekThermalPro Session1.H EmptyString true;
     EvOpen Session1.H false; EvDestroy Session1.H] = [] ++ evs ∧
    (evs = [EvConstruct SeekThermalPro c EmptyString false] ∨
     evs = [EvConstruct SeekThermalPro c EmptyString true; EvOpen c false;
            EvDestroy c] ∨
     evs = [EvConstruct SeekThermalPro c EmptyString true; EvOpen c true;
            EvRead c false; EvClose c; EvDestroy c]).
Proof.
  assert (Hopen : seek_open 1 None (Scripted.boot (Scripted.mk true false []))
                  = Ok (None,
                        mkState ∅ ∅ (Scripted.mk true false [])
                          [EvConstruct SeekThermalPro Session1.H EmptyString true;
                           EvOpen Session1.H false; EvDestroy Session1.H]))
    by (vm_compute; reflexivity).
  split; [exact Hopen|]. exact (seek_open_stops_at_first_failure _ _ _ _ Hopen).
Defined.

(** ** Reading with the reported dimensions *)


(** X11. An empty frame is not a success: when the device's [read]
    succeeds with a matrix that holds no sample (rows times columns is 0 and
    the data pointer is null), [seek_read_frame] on an open handle with a
    buffer and a positive capacity passes the capacity test and hands the
    null pointer to [memcpy], which is undefined behaviour even for a count
    of 0. *)
Theorem seek_read_frame_empty_frame {W : Type} `{!LibSeek W}
    (p : positive) (h : SeekHandle.t) (c : positive) (k : CamClass)
    (buf : list Z) (capacity : Z) (s : State W) (m : Mat) (w : W) :
  handle_open s p h c k →
  0 < capacity →
  cam_read k c (SeekHandle.frame h) (world s) = (Returned true, m, w) →
  rows m * cols m = 0 →
  data m = [] →
  seek_read_frame (Some p) (Some buf) capacity s = Crash NullDeref.
Proof.
  intros (Hp & (Hcam & _) & Hc) Hcap Hread Hzero Hdata.
  rewrite (seek_read_frame_eq _ _ _ _ _ _ _ Hp Hcam Hc Hcap), Hread. cbn zeta.
  rewrite Hzero, Hdata. cbn [negb]. change (in_int 0) with true. cbn [negb].
  replace (capacity <? 0) with false by (symmetry; apply Z.ltb_ge; lia).
  reflexivity.
Qed.


(** A device that delivers a matrix of no rows and no columns. *)
Lemma seek_read_frame_empty_frame_witness :
  (handle_open (Session1.session Scripted.frame23 [Some Mat_default] [])
     Session1.H (Session1.handle23 Scripted.frame23) Session1.H SeekThermal ∧
   0 < 6 ∧ rows Mat_default * cols Mat_default = 0 ∧ data Mat_default = []) ∧
  seek_read_frame (Some Session1.H) (Some Session1.zeros) 6
    (Session1.session Scripted.frame23 [Some Mat_default] [])
  = Crash NullDeref.
Proof.
  assert (Hopen : handle_open
                    (Session1.session Scripted.frame23 [Some Mat_default] [])
                    Session1.H (Session1.handle23 Scripted.frame23) Session1.H
                    SeekThermal)
    by (repeat split; reflexivity).
  assert (Hcap : 0 < 6) by lia.
  assert (Hzero : rows Mat_default * cols Mat_default = 0) by reflexivity.
  assert (Hdata : data Mat_default = []) by reflexivity.
  assert (Hread : cam_read SeekThermal Session1.H
                    (SeekHandle.frame (Session1.handle23 Scripted.frame23))
                    (world (Session1.session Scripted.frame23 [Some Mat_default] []))
                  = (Returned true, Mat_default, Session1.device []))
    by reflexivity.
  split; [split; [exact Hopen|split; [exact Hcap|split; [exact Hzero|exact Hdata]]]|].
  exact (seek_read_frame_empty_frame _ _ _ _ _ _ _ _ _ Hopen Hcap Hread Hzero Hdata).
Defined.
